(** * ArrayOf and CollectionOf: a shallow embedding

    The two class templates of the repository, [ArrayOf<T, Alloc>]
    (array_of.hpp) and [CollectionOf<T, Alloc>] (collection_of.hpp), are
    modelled over an explicit store: a heap of allocator blocks whose slots
    are either raw or hold a live [T], a log of the allocator and lifetime
    events, and a budget that decides when an element constructor throws.
    Member functions become functions in a state-and-exception monad whose
    third outcome is undefined behaviour. *)

From stdpp Require Import base numbers option list gmap.

Local Open Scope N_scope.

(** ** Element and allocator interfaces *)

(** What the templates ask of [T]: [value_type{}] and [operator==]. *)
Class Element (T : Type) := {
  T_default : T;
  T_eqb : T -> T -> bool;
}.

(** [T(std::forward<Args>(args)...)]: the constructed value together with what
    is left of the argument pack afterwards.  A pack of lvalues or of
    trivially copyable values is left as it was; an rvalue handed to a move
    constructor is left in its moved-from state. *)
Class Constructible (Args T : Type) := {
  T_construct : Args -> T * Args;
}.

(** [std::size_t].  The members modelled here only count up to a length
    or add an index below it to a pointer, so nothing wraps. *)
Definition size_type := N.

(** A [T*]: null, or a slot of an allocator block. *)
Inductive pointer :=
| nullptr
| Ptr (b : N) (off : size_type).

Global Instance pointer_eq_dec : EqDecision pointer.
Proof. solve_decision. Defined.

(** [p + i]. *)
Definition ptr_add (p : pointer) (i : size_type) : pointer :=
  match p with
  | nullptr => nullptr
  | Ptr b off => Ptr b (off + i)
  end.

(** The allocator policy object: its identity and the largest request
    [allocate] satisfies (larger requests throw). *)
Record Alloc := MkAlloc { alloc_id : N; max_size : size_type }.

Global Instance Alloc_eq_dec : EqDecision Alloc.
Proof. solve_decision. Defined.

(** [allocator_type{}] and [std::allocator<T>()]; the bound on a request is
    the model's choice. *)
Definition Alloc_default : Alloc := MkAlloc 0 (2 ^ 61).
Definition std_allocator : Alloc := MkAlloc 0 (2 ^ 61).

Inductive exn := bad_alloc | out_of_range | element_failure.

Global Instance exn_eq_dec : EqDecision exn.
Proof. solve_decision. Defined.

(** ** The store *)

Section Store.
Context {T : Type}.

Inductive event :=
| EvAllocate (a : Alloc) (b : N) (n : size_type)
| EvConstruct (b : N) (i : size_type) (v : T)
| EvDestroy (b : N) (i : size_type)
| EvDeallocate (a : Alloc) (b : N) (n : size_type).

(** An allocation: who made it and its slots, [None] for raw storage. *)
Record block := MkBlock { blk_alloc : Alloc; blk_slots : list (option T) }.

Record state := MkState {
  heap : gmap N block;
  next_block : N;
  trace : list event;
  (** Element constructions that still succeed before one throws. *)
  throw_after : option nat;
}.

Inductive outcome (A : Type) :=
| Ret (a : A) (s : state)
| Throw (e : exn) (s : state)
| Undef.
Global Arguments Ret {A} a s.
Global Arguments Throw {A} e s.
Global Arguments Undef {A}.

Definition M (A : Type) : Type := state -> outcome A.

Definition ret {A} (a : A) : M A := fun s => Ret a s.
Definition throw {A} (e : exn) : M A := fun s => Throw e s.
Definition undef {A} : M A := fun _ => Undef.
Definition bind {A B} (m : M A) (k : A -> M B) : M B := fun s =>
  match m s with
  | Ret a s' => k a s'
  | Throw e s' => Throw e s'
  | Undef => Undef
  end.
(** [try { m } catch (...) { h; throw; }] *)
Definition on_throw {A} (m : M A) (h : M unit) : M A := fun s =>
  match m s with
  | Throw e s' => bind h (fun _ => throw e) s'
  | r => r
  end.

Definition set_heap (h : gmap N block) (s : state) : state :=
  MkState h (next_block s) (trace s) (throw_after s).
Definition log (e : event) (s : state) : state :=
  MkState (heap s) (next_block s) (trace s ++ [e]) (throw_after s).

Definition slot_of (s : state) (b : N) (i : size_type) : option (option T) :=
  blk ← heap s !! b; blk_slots blk !! N.to_nat i.

Definition set_slot (b : N) (i : size_type) (x : option T) (s : state) : state :=
  set_heap (alter (fun blk => MkBlock (blk_alloc blk)
                                (<[N.to_nat i := x]> (blk_slots blk))) b (heap s)) s.

(** [Alloc::allocate(n)]: a fresh block of [n] raw slots. *)
Definition allocate (a : Alloc) (n : size_type) : M pointer := fun s =>
  if n <=? max_size a then
    let b := next_block s in
    Ret (Ptr b 0)
        (log (EvAllocate a b n)
             (MkState (<[b := MkBlock a (replicate (N.to_nat n) None)]> (heap s))
                      (N.succ b) (trace s) (throw_after s)))
  else Throw bad_alloc s.

(** [Alloc::deallocate(p, n)]: [p] must be what [allocate(n)] returned, on
    this allocator or one equal to it, and not yet released. *)
Definition deallocate (a : Alloc) (p : pointer) (n : size_type) : M unit := fun s =>
  match p with
  | Ptr b 0 =>
      match heap s !! b with
      | Some blk =>
          if decide (blk_alloc blk = a /\ length (blk_slots blk) = N.to_nat n) then
            Ret tt (log (EvDeallocate a b n) (set_heap (delete b (heap s)) s))
          else Undef
      | None => Undef
      end
  | _ => Undef
  end.

(** The element constructor either runs or throws, by the budget. *)
Definition element_ctor_guard : M unit := fun s =>
  match throw_after s with
  | Some O => Throw element_failure (MkState (heap s) (next_block s) (trace s) None)
  | Some (S k) => Ret tt (MkState (heap s) (next_block s) (trace s) (Some k))
  | None => Ret tt s
  end.

(** [::new (p) T(v)]: the slot's storage is reused, which ends the life
    of whatever object it held; then the constructor runs.  The slot holds
    [v] when the constructor returns and no object when it throws. *)
Definition construct_at (p : pointer) (v : T) : M unit := fun s =>
  match p with
  | Ptr b i =>
      match slot_of s b i with
      | Some _ => bind element_ctor_guard
                    (fun _ s' => Ret tt (log (EvConstruct b i v) (set_slot b i (Some v) s')))
                    (set_slot b i None s)
      | None => Undef
      end
  | nullptr => Undef
  end.

(** [p->~T()]: the slot must hold an object. *)
Definition destroy_at (p : pointer) : M unit := fun s =>
  match p with
  | Ptr b i =>
      match slot_of s b i with
      | Some (Some _) => Ret tt (log (EvDestroy b i) (set_slot b i None s))
      | _ => Undef
      end
  | nullptr => Undef
  end.

(** [*p] read and [*p = v]: the slot must hold an object. *)
Definition load (p : pointer) : M T := fun s =>
  match p with
  | Ptr b i =>
      match slot_of s b i with
      | Some (Some v) => Ret v s
      | _ => Undef
      end
  | nullptr => Undef
  end.
Definition store (p : pointer) (v : T) : M unit := fun s =>
  match p with
  | Ptr b i =>
      match slot_of s b i with
      | Some (Some _) => Ret tt (set_slot b i (Some v) s)
      | _ => Undef
      end
  | nullptr => Undef
  end.
End Store.

Global Arguments event : clear implicits.
Global Arguments block : clear implicits.
Global Arguments state : clear implicits.
Global Arguments outcome : clear implicits.
Global Arguments M : clear implicits.

Declare Scope cpp_scope.
Delimit Scope cpp_scope with cpp.
Notation "'let*' x := m 'in' k" := (bind m (fun x => k))
  (at level 10, x name, m at level 100, k at level 200) : cpp_scope.
Notation "m ;; k" := (bind m (fun _ => k))
  (at level 100, k at level 200, right associativity) : cpp_scope.
Local Open Scope cpp_scope.

(** ** <iterator>, <memory> and <algorithm> *)

Section Std.
Context {T : Type} `{!Element T}.

(** [last - first], defined within one block only. *)
Definition distance (first last : pointer) : option size_type :=
  match first, last with
  | nullptr, nullptr => Some 0
  | Ptr b i, Ptr b' j => if decide (b = b' /\ i <= j) then Some (j - i) else None
  | _, _ => None
  end.

(** [std::swap(x, y)] on values. *)
Definition std_swap {A} (x y : A) : A * A := (y, x).

(** [std::_Destroy(first + cur, first + cur + n)], in index order. *)
Fixpoint destroy_n (first : pointer) (cur : size_type) (n : nat) : M T unit :=
  match n with
  | O => ret tt
  | S n' => destroy_at (ptr_add first cur);; destroy_n first (cur + 1) n'
  end.

(** [std::uninitialized_fill_n(first, n, x)]: copy-constructs [x] into the
    slots one after another; when a copy throws, the copies made so far
    are destroyed and the exception is rethrown. *)
Fixpoint uninitialized_fill_from (first : pointer) (cur : size_type) (n : nat) (x : T)
  : M T unit :=
  match n with
  | O => ret tt
  | S n' =>
      on_throw (construct_at (ptr_add first cur) x)
               (destroy_n first 0 (N.to_nat cur));;
      uninitialized_fill_from first (cur + 1) n' x
  end.
Definition uninitialized_fill_n (first : pointer) (n : size_type) (x : T) : M T unit :=
  uninitialized_fill_from first 0 (N.to_nat n) x.

(** [p, p + n) lies within the block [p] points into. *)
Definition in_bounds (s : state T) (p : pointer) (n : size_type) : bool :=
  match p with
  | Ptr b off =>
      match heap s !! b with
      | Some blk => bool_decide (N.to_nat off + N.to_nat n <= List.length (blk_slots blk))%nat
      | None => false
      end
  | nullptr => bool_decide (n = 0)
  end.

(** The comparison loop of [std::equal(first1, last1, first2)]: it walks
    [first1, last1) and stops at the first mismatch.  [equal] below runs it
    only where both ranges lie within their blocks. *)
Fixpoint equal_from (first1 first2 : pointer) (cur : size_type) (n : nat) : M T bool :=
  match n with
  | O => ret true
  | S n' =>
      let* x := load (ptr_add first1 cur) in
      let* y := load (ptr_add first2 cur) in
      if T_eqb x y then equal_from first1 first2 (cur + 1) n' else ret false
  end.
(** [std::equal(first1, last1, first2)]: the second range is given by its
    start only and has to hold as many elements as the first; a call where
    it does not is undefined whatever the elements are. *)
Definition equal (first1 last1 first2 : pointer) : M T bool := fun s =>
  match distance first1 last1 with
  | Some n =>
      if in_bounds s first1 n && in_bounds s first2 n
      then equal_from first1 first2 0 (N.to_nat n) s
      else Undef
  | None => Undef
  end.

(** [std::swap_ranges(first1, last1, first2)]. *)
Fixpoint swap_ranges_from (first1 first2 : pointer) (cur : size_type) (n : nat) : M T unit :=
  match n with
  | O => ret tt
  | S n' =>
      let* x := load (ptr_add first1 cur) in
      let* y := load (ptr_add first2 cur) in
      let '(x', y') := std_swap x y in
      store (ptr_add first1 cur) x';;
      store (ptr_add first2 cur) y';;
      swap_ranges_from first1 first2 (cur + 1) n'
  end.
Definition swap_ranges (first1 last1 first2 : pointer) : M T unit :=
  match distance first1 last1 with
  | Some n => swap_ranges_from first1 first2 0 (N.to_nat n)
  | None => undef
  end.

(** The values of a run of slots, when every one of them is live. *)
Fixpoint all_live (l : list (option T)) : option (list T) :=
  match l with
  | [] => Some []
  | Some v :: l' => cons v <$> all_live l'
  | None :: _ => None
  end.

(** What a container with storage [p] and length [n] holds: defined when
    [p] is the start of a block of exactly [n] live slots. *)
Definition contents (s : state T) (p : pointer) (n : size_type) : option (list T) :=
  match p with
  | Ptr b 0 =>
      match heap s !! b with
      | Some blk =>
          if decide (List.length (blk_slots blk) = N.to_nat n)
          then all_live (blk_slots blk) else None
      | None => None
      end
  | _ => None
  end.

Definition count_events (f : event T -> bool) (s : state T) : nat :=
  List.length (List.filter f (trace s)).
Definition is_construct (e : event T) : bool :=
  match e with EvConstruct _ _ _ => true | _ => false end.
Definition is_destroy (e : event T) : bool :=
  match e with EvDestroy _ _ => true | _ => false end.
Definition is_deallocate (e : event T) : bool :=
  match e with EvDeallocate _ _ _ => true | _ => false end.
(** The element constructor can run [k] more times without throwing, and
    what is left of the budget after [k] runs. *)
Definition budget_ok (k : nat) (s : state T) : Prop :=
  match throw_after s with Some j => (k <= j)%nat | None => True end.
Definition spend (k : nat) (o : option nat) : option nat :=
  (fun j => (j - k)%nat) <$> o.

(** A run of slots written one after another from index [cur] on, and the
    events the loops over a block leave in the log. *)
Fixpoint write_from (cur : nat) (xs : list (option T)) (slots : list (option T))
  : list (option T) :=
  match xs with
  | [] => slots
  | x :: xs' => write_from (S cur) xs' (<[cur := x]> slots)
  end.
Fixpoint construct_events (b : N) (cur : size_type) (vs : list T) : list (event T) :=
  match vs with
  | [] => []
  | v :: vs' => EvConstruct b cur v :: construct_events b (cur + 1) vs'
  end.
(** What [equal_from] computes on two runs of values, the second at least
    as long as the first. *)
Fixpoint prefix_eqb (vs ws : list T) : bool :=
  match vs, ws with
  | [], _ => true
  | v :: vs', w :: ws' => if T_eqb v w then prefix_eqb vs' ws' else false
  | _ :: _, [] => false
  end.
Fixpoint destroy_events (b : N) (cur : size_type) (n : nat) : list (event T) :=
  match n with
  | O => []
  | S n' => EvDestroy b cur :: destroy_events b (cur + 1) n'
  end.
(** [x - y] on [std::size_t]: 64-bit, wrapping below zero. *)
Definition size_sub (x y : size_type) : size_type := (x + 2 ^ 64 - y) mod 2 ^ 64.

(** [std::reverse_iterator<T*>]: it holds [current]; [*r] reads
    [*(current - 1)] and [++r] steps [current] back by one. *)
Record reverse_iterator := MkReverse { current : pointer }.
Definition ptr_pred (p : pointer) : option pointer :=
  match p with
  | Ptr b off => if decide (0 < off) then Some (Ptr b (off - 1)) else None
  | nullptr => None
  end.
Definition reverse_deref (r : reverse_iterator) : M T T :=
  match ptr_pred (current r) with
  | Some p => load p
  | None => undef
  end.
Definition reverse_next (r : reverse_iterator) : M T reverse_iterator :=
  match ptr_pred (current r) with
  | Some p => ret (MkReverse p)
  | None => undef
  end.

(** A caller's loop [for (it = first; it != last; ++it)] that reads every
    element it passes: the values read, in the order they are read, for
    pointers and for reverse iterators. *)
Fixpoint read_from (first : pointer) (cur : size_type) (n : nat) : M T (list T) :=
  match n with
  | O => ret []
  | S n' =>
      let* x := load (ptr_add first cur) in
      let* xs := read_from first (cur + 1) n' in
      ret (x :: xs)
  end.
Definition read_range (first last : pointer) : M T (list T) :=
  match distance first last with
  | Some n => read_from first 0 (N.to_nat n)
  | None => undef
  end.
Fixpoint read_reverse_from (r : reverse_iterator) (n : nat) : M T (list T) :=
  match n with
  | O => ret []
  | S n' =>
      let* x := reverse_deref r in
      let* r' := reverse_next r in
      let* xs := read_reverse_from r' n' in
      ret (x :: xs)
  end.
Definition read_reverse_range (first last : reverse_iterator) : M T (list T) :=
  match distance (current last) (current first) with
  | Some n => read_reverse_from first (N.to_nat n)
  | None => undef
  end.
End Std.

(** ** array_of.hpp *)

Module ArrayOf.
(** [struct Deleter { Alloc alloc{}; }] *)
Record Deleter := MkDeleter { alloc : Alloc }.

(** The data members [length_], [ptr_] and [d_]. *)
Record t := Mk { length_ : size_type; ptr_ : pointer; d_ : Deleter }.

Section Members.
Context {T : Type} `{!Element T}.

(** [Deleter::operator()(T* ptr, size_type n)] *)
Definition Deleter_call (d : Deleter) (ptr : pointer) (n : size_type) : M T unit :=
  if decide (ptr = nullptr) then ret tt else deallocate (alloc d) ptr n.

(** [explicit ArrayOf(size_type length, const value_type& v = value_type{},
    const allocator_type& alloc = allocator_type{})] *)
Definition ctor (length : size_type) (v : T) (a : Alloc) : M T t :=
  let length_ := length in
  let d_ := MkDeleter a in
  let* ptr_ := allocate (alloc d_) length_ in
  uninitialized_fill_n ptr_ length_ v;;
  ret (Mk length_ ptr_ d_).

(** [ArrayOf(n)]: the constructor above with both default arguments. *)
Definition ctor_n (length : size_type) : M T t :=
  ctor length T_default Alloc_default.

(** [ArrayOf(size_type length, const allocator_type& alloc)
      : ArrayOf(length_, value_type{}, alloc) {}]
    The delegation passes the member [length_], which nothing has
    initialised yet, and not the parameter [length]; [uninit_length_] is
    the value read from it. *)
Definition ctor_alloc (uninit_length_ : size_type)
    (length : size_type) (a : Alloc) : M T t :=
  ctor uninit_length_ T_default a.

(** [ArrayOf(size_type length, const value_type& v)
      : ArrayOf(length, v, std::allocator<T>()) {}] *)
Definition ctor_value (length : size_type) (v : T) : M T t :=
  ctor length v std_allocator.

(** [ArrayOf(ArrayOf&& other)] has no definition here.  It names no
    initialiser for [d_], so [d_] would be default-initialised, and
    [Deleter] declares [explicit Deleter(const allocator_type&)] and with
    it no default constructor: the constructor cannot be instantiated, and
    there is no object it leaves behind to describe. *)

(** [ArrayOf& operator=(ArrayOf&& other)]: returns [*this] and [other]
    as they are left. *)
Definition move_assign (this other : t) : t * t :=
  let '(l, ol) := std_swap (length_ this) (length_ other) in
  let '(p, op) := std_swap (ptr_ this) (ptr_ other) in
  let d := MkDeleter (alloc (d_ other)) in
  (Mk l p d, Mk ol op (d_ other)).

(** [~ArrayOf() { d_(ptr_, length_); }] *)
Definition dtor (this : t) : M T unit :=
  Deleter_call (d_ this) (ptr_ this) (length_ this).

Definition RangeCheck (this : t) (n : size_type) : M T unit :=
  if length_ this <=? n then throw out_of_range else ret tt.

(** [at(n)] and [operator[](n)]: the reference is the slot's address. *)
Definition at_ (this : t) (n : size_type) : M T pointer :=
  RangeCheck this n;; ret (ptr_add (ptr_ this) n).
Definition subscript (this : t) (n : size_type) : M T pointer :=
  ret (ptr_add (ptr_ this) n).

Definition data (this : t) : pointer := ptr_ this.
Definition begin (this : t) : pointer := ptr_ this.
Definition end_ (this : t) : pointer := ptr_add (ptr_ this) (length_ this).
Definition length (this : t) : size_type := length_ this.

(** [void fill(const value_type& v)]; returns [*this]. *)
Definition fill (this : t) (v : T) : M T t :=
  uninitialized_fill_n (ptr_ this) (length_ this) v;;
  ret this.

(** [void swap(ArrayOf&& other)]; returns [*this] and [other]. *)
Definition swap (this other : t) : M T (t * t) :=
  swap_ranges (begin this) (end_ this) (begin other);;
  ret (this, other).

(** [operator==] and [operator!=] *)
Definition eq (lhs rhs : t) : M T bool :=
  equal (begin lhs) (end_ lhs) (begin rhs).
Definition ne (lhs rhs : t) : M T bool :=
  let* r := eq lhs rhs in ret (negb r).

(** The values the array holds in store [s]. *)
Definition elements (s : state T) (this : t) : option (list T) :=
  contents s (ptr_ this) (length_ this).
(** [front()], [back()], [rbegin()] and [rend()]. *)
Definition front (this : t) : M T pointer :=
  ret (ptr_add (ptr_ this) 0).
Definition back (this : t) : M T pointer :=
  ret (ptr_add (ptr_ this) (size_sub (length_ this) 1)).
Definition rbegin (this : t) : reverse_iterator := MkReverse (end_ this).
Definition rend (this : t) : reverse_iterator := MkReverse (begin this).
End Members.
End ArrayOf.

(** ** collection_of.hpp *)

Module CollectionOf.
Record Deleter := MkDeleter { alloc : Alloc }.

Record t := Mk { length_ : size_type; ptr_ : pointer; d_ : Deleter }.

Section Members.
Context {T : Type} `{!Element T}.

(** [Deleter::operator()]: no null test here. *)
Definition Deleter_call (d : Deleter) (ptr : pointer) (n : size_type) : M T unit :=
  deallocate (alloc d) ptr n.

(** [explicit CollectionOf(size_type length, const allocator_type& alloc)]:
    storage only. *)
Definition ctor (length : size_type) (a : Alloc) : M T t :=
  let length_ := length in
  let d_ := MkDeleter a in
  let* ptr_ := allocate (alloc d_) length_ in
  ret (Mk length_ ptr_ d_).

(** [~CollectionOf()]:
    [for (size_type i = 0; i < n; ++i) ptr[i].~T();  d_(ptr_, length_);]
    The loop names [n] and [ptr], which the class declares nowhere (its
    members are [length_] and [ptr_]): they are free in the destructor and
    are parameters here, standing for whatever an enclosing scope gives
    those names.  Without such a scope the destructor does not compile. *)
Definition dtor_body (n : size_type) (ptr : pointer) (this : t) : M T unit :=
  destroy_n ptr 0 (N.to_nat n);;
  Deleter_call (d_ this) (ptr_ this) (length_ this).

Definition RangeCheck (this : t) (n : size_type) : M T unit :=
  if length_ this <=? n then throw out_of_range else ret tt.

Definition at_ (this : t) (n : size_type) : M T pointer :=
  RangeCheck this n;; ret (ptr_add (ptr_ this) n).
Definition subscript (this : t) (n : size_type) : M T pointer :=
  ret (ptr_add (ptr_ this) n).

Definition data (this : t) : pointer := ptr_ this.
Definition begin (this : t) : pointer := ptr_ this.
Definition end_ (this : t) : pointer := ptr_add (ptr_ this) (length_ this).
Definition length (this : t) : size_type := length_ this.

(** [template <typename... Args> void construct(Args&&... args)]: the
    pack is forwarded anew in every iteration; returns [*this]. *)
Fixpoint construct_from {Args} `{!Constructible Args T}
    (this : t) (args : Args) (i : size_type) (n : nat) : M T unit :=
  match n with
  | O => ret tt
  | S n' =>
      let '(v, args') := T_construct args in
      construct_at (ptr_add (ptr_ this) i) v;;
      construct_from this args' (i + 1) n'
  end.
Definition construct {Args} `{!Constructible Args T} (this : t) (args : Args) : M T t :=
  construct_from this args 0 (N.to_nat (length_ this));;
  ret this.

Definition eq (lhs rhs : t) : M T bool :=
  equal (begin lhs) (end_ lhs) (begin rhs).
Definition ne (lhs rhs : t) : M T bool :=
  let* r := eq lhs rhs in ret (negb r).

Definition elements (s : state T) (this : t) : option (list T) :=
  contents s (ptr_ this) (length_ this).

(** The values [construct] builds, slot by slot, from a pack that each
    construction may consume. *)
Fixpoint construct_values {Args} `{!Constructible Args T} (args : Args) (n : nat) : list T :=
  match n with
  | O => []
  | S n' => let '(v, args') := T_construct args in v :: construct_values args' n'
  end.
(** [front()], [back()], [rbegin()] and [rend()]. *)
Definition front (this : t) : M T pointer :=
  ret (ptr_add (ptr_ this) 0).
Definition back (this : t) : M T pointer :=
  ret (ptr_add (ptr_ this) (size_sub (length_ this) 1)).
Definition rbegin (this : t) : reverse_iterator := MkReverse (end_ this).
Definition rend (this : t) : reverse_iterator := MkReverse (begin this).
End Members.
End CollectionOf.

(** ** Element types used in the examples *)

(** [int] *)
Global Instance int_Element : Element Z := {| T_default := 0%Z; T_eqb := Z.eqb |}.
(** [construct(42)]: an [int] argument is copied, never consumed. *)
Global Instance int_from_int : Constructible Z Z := {| T_construct a := (a, a) |}.

(** [std::vector<int>] *)
Global Instance vector_Element : Element (list Z) :=
  {| T_default := []; T_eqb x y := bool_decide (x = y) |}.

(** An argument of type [std::vector<int>]: an lvalue is copied from, an
    rvalue is moved from and left empty. *)
Inductive vector_arg := Lvalue (v : list Z) | Rvalue (v : list Z).
Global Instance vector_from_arg : Constructible vector_arg (list Z) :=
  {| T_construct a := match a with
                       | Lvalue v => (v, Lvalue v)
                       | Rvalue v => (v, Rvalue [])
                       end |}.

Definition empty_state {T} : state T := MkState ∅ 0 [] None.

(** The block an array's storage pointer names (0 for a null pointer). *)
Definition ArrayOf_block (a : ArrayOf.t) : N :=
  match ArrayOf.data a with Ptr b _ => b | nullptr => 0 end.

(** Two allocators of one stateful allocator type that do not compare
    equal, such as two arenas. *)
Definition arena_1 : Alloc := MkAlloc 1 1024.
Definition arena_2 : Alloc := MkAlloc 2 1024.

(** Two [ArrayOf<int>] of length three, holding 1, 2, 3 and 9, 8, 7. *)
Definition store_123_987 : state Z :=
  MkState (<[1 := MkBlock Alloc_default [Some 9; Some 8; Some 7]%Z]>
             (<[0 := MkBlock Alloc_default [Some 1; Some 2; Some 3]%Z]> ∅))
          2 [] None.
Definition array_123 : ArrayOf.t :=
  ArrayOf.Mk 3 (Ptr 0 0) (ArrayOf.MkDeleter Alloc_default).
Definition array_987 : ArrayOf.t :=
  ArrayOf.Mk 3 (Ptr 1 0) (ArrayOf.MkDeleter Alloc_default).

(** The same two arrays where the second element construction from now on
    throws, and an empty store where it does. *)
Definition store_123_987_throwing : state Z :=
  MkState (heap store_123_987) 2 [] (Some 1%nat).
Definition empty_state_throwing : state Z := MkState ∅ 0 [] (Some 1%nat).

(** Two [ArrayOf<int>] of lengths two and four, holding 1, 2 and
    1, 2, 5, 6. *)
Definition store_12_1256 : state Z :=
  MkState (<[1 := MkBlock Alloc_default [Some 1; Some 2; Some 5; Some 6]%Z]>
             (<[0 := MkBlock Alloc_default [Some 1; Some 2]%Z]> ∅))
          2 [] None.
Definition array_12 : ArrayOf.t :=
  ArrayOf.Mk 2 (Ptr 0 0) (ArrayOf.MkDeleter Alloc_default).
Definition array_1256 : ArrayOf.t :=
  ArrayOf.Mk 4 (Ptr 1 0) (ArrayOf.MkDeleter Alloc_default).

(** Two [ArrayOf<int>] of length three, holding 1, 2, 3 and 7, 7, 7. *)
Definition store_123_777 : state Z :=
  MkState (<[1 := MkBlock Alloc_default [Some 7; Some 7; Some 7]%Z]>
             (<[0 := MkBlock Alloc_default [Some 1; Some 2; Some 3]%Z]> ∅))
          2 [] None.
Definition array_777 : ArrayOf.t :=
  ArrayOf.Mk 3 (Ptr 1 0) (ArrayOf.MkDeleter Alloc_default).

(** Two constructed [CollectionOf<int>] over the blocks of [store_12_1256]. *)
Definition collection_12 : CollectionOf.t :=
  CollectionOf.Mk 2 (Ptr 0 0) (CollectionOf.MkDeleter Alloc_default).
Definition collection_1256 : CollectionOf.t :=
  CollectionOf.Mk 4 (Ptr 1 0) (CollectionOf.MkDeleter Alloc_default).

(** ** Programs over named containers *)

(** The containers a program has declared, by name, and beside each the
    length its constructor was given. *)
Record objects := MkObjects {
  arrays : gmap N ArrayOf.t;
  collections : gmap N CollectionOf.t;
  array_length_given : gmap N size_type;
  collection_length_given : gmap N size_type }.

Definition no_objects : objects := MkObjects ∅ ∅ ∅ ∅.

Definition declare_array (x : N) (n : size_type) (a : ArrayOf.t) (o : objects) : objects :=
  MkObjects (<[x := a]> (arrays o)) (collections o)
            (<[x := n]> (array_length_given o)) (collection_length_given o).
Definition set_array (x : N) (a : ArrayOf.t) (o : objects) : objects :=
  MkObjects (<[x := a]> (arrays o)) (collections o)
            (array_length_given o) (collection_length_given o).
Definition declare_collection (x : N) (n : size_type) (c : CollectionOf.t) (o : objects)
  : objects :=
  MkObjects (arrays o) (<[x := c]> (collections o))
            (array_length_given o) (<[x := n]> (collection_length_given o)).
Definition set_collection (x : N) (c : CollectionOf.t) (o : objects) : objects :=
  MkObjects (arrays o) (<[x := c]> (collections o))
            (array_length_given o) (collection_length_given o).

Section Programs.
Context {T : Type} `{!Element T} {Args : Type} `{!Constructible Args T}.

(** The statements of a program; [x] and [y] name containers. *)
Inductive stmt :=
| NewArrayOf (x : N) (n : size_type) (v : T) (al : Alloc)
    (** [ArrayOf<T, Alloc> x(n, v, al);] *)
| Fill (x : N) (v : T)                        (** [x.fill(v);] *)
| Swap (x y : N)                              (** [x.swap(std::move(y));] *)
| At (x : N) (i : size_type)                  (** [x.at(i);], read *)
| SubscriptAssign (x : N) (i : size_type) (v : T)   (** [x[i] = v;] *)
| Traverse (x : N)            (** [for (auto it = x.begin(); it != x.end(); ++it) *it;] *)
| Equal (x y : N)                             (** [x == y;] *)
| MoveAssign (x y : N)                        (** [x = std::move(y);] *)
| NewCollectionOf (x : N) (n : size_type) (al : Alloc)
    (** [CollectionOf<T, Alloc> x(n, al);] *)
| Construct (x : N) (args : Args)             (** [x.construct(args);] *)
| CollectionAt (x : N) (i : size_type)        (** [x.at(i);], read *)
| CollectionSubscriptAssign (x : N) (i : size_type) (v : T)   (** [x[i] = v;] *)
| CollectionTraverse (x : N)
| CollectionEqual (x y : N).

Definition with_array {A} (o : objects) (x : N) (k : ArrayOf.t -> M T A) : M T A :=
  match arrays o !! x with Some a => k a | None => undef end.
Definition with_collection {A} (o : objects) (x : N) (k : CollectionOf.t -> M T A) : M T A :=
  match collections o !! x with Some c => k c | None => undef end.

(** One statement: the member function is called on the named objects and
    the objects it hands back are stored under their names. *)
Definition exec (c : stmt) (o : objects) : M T objects :=
  match c with
  | NewArrayOf x n v al =>
      match arrays o !! x with
      | Some _ => undef
      | None => let* a := ArrayOf.ctor n v al in ret (declare_array x n a o)
      end
  | Fill x v =>
      with_array o x (fun a =>
        let* a' := ArrayOf.fill a v in ret (set_array x a' o))
  | Swap x y =>
      with_array o x (fun a => with_array o y (fun b =>
        let* r := ArrayOf.swap a b in
        ret (set_array y r.2 (set_array x r.1 o))))
  | At x i =>
      with_array o x (fun a =>
        let* p := ArrayOf.at_ a i in let* _ := load p in ret o)
  | SubscriptAssign x i v =>
      with_array o x (fun a =>
        let* p := ArrayOf.subscript a i in let* _ := store p v in ret o)
  | Traverse x =>
      with_array o x (fun a =>
        let* _ := read_range (ArrayOf.begin a) (ArrayOf.end_ a) in ret o)
  | Equal x y =>
      with_array o x (fun a => with_array o y (fun b =>
        let* _ := ArrayOf.eq a b in ret o))
  | MoveAssign x y =>
      with_array o x (fun a => with_array o y (fun b =>
        let r := ArrayOf.move_assign a b in
        ret (set_array y r.2 (set_array x r.1 o))))
  | NewCollectionOf x n al =>
      match collections o !! x with
      | Some _ => undef
      | None => let* c := CollectionOf.ctor n al in ret (declare_collection x n c o)
      end
  | Construct x args =>
      with_collection o x (fun c =>
        let* c' := CollectionOf.construct c args in ret (set_collection x c' o))
  | CollectionAt x i =>
      with_collection o x (fun c =>
        let* p := CollectionOf.at_ c i in let* _ := load p in ret o)
  | CollectionSubscriptAssign x i v =>
      with_collection o x (fun c =>
        let* p := CollectionOf.subscript c i in let* _ := store p v in ret o)
  | CollectionTraverse x =>
      with_collection o x (fun c =>
        let* _ := read_range (CollectionOf.begin c) (CollectionOf.end_ c) in ret o)
  | CollectionEqual x y =>
      with_collection o x (fun c => with_collection o y (fun d =>
        let* _ := CollectionOf.eq c d in ret o))
  end.

(** A program: its statements in order; an exception or undefined
    behaviour ends it. *)
Fixpoint run (p : list stmt) (o : objects) : M T objects :=
  match p with
  | [] => ret o
  | c :: p' => let* o' := exec c o in run p' o'
  end.

Definition is_move (c : stmt) : bool :=
  match c with MoveAssign _ _ => true | _ => false end.
Definition move_free (p : list stmt) : bool := forallb (fun c => negb (is_move c)) p.

(** Every declared container answers [length()] with the length its
    constructor was given. *)
Definition lengths_as_given (o : objects) : Prop :=
  (forall x a, arrays o !! x = Some a ->
     array_length_given o !! x = Some (ArrayOf.length a)) /\
  (forall x c, collections o !! x = Some c ->
     collection_length_given o !! x = Some (CollectionOf.length c)).
End Programs.

Global Arguments stmt : clear implicits.

(** [ArrayOf<int> a(3, 5), b(3, 9); a.fill(7); a.swap(std::move(b));
    a.at(1); b[2] = 4; for (int x : a) ...; a == b;
    CollectionOf<int> c(2); c.construct(42); c.at(1); c[0] = 1;
    for (int x : c) ...; c == c;] *)
Definition program_without_moves : list (stmt Z Z) :=
  [NewArrayOf 0 3 5%Z Alloc_default; NewArrayOf 1 3 9%Z Alloc_default;
   Fill 0 7%Z; Swap 0 1; At 0 1; SubscriptAssign 1 2 4%Z; Traverse 0; Equal 0 1;
   NewCollectionOf 0 2 Alloc_default; Construct 0 42%Z; CollectionAt 0 1;
   CollectionSubscriptAssign 0 0 1%Z; CollectionTraverse 0; CollectionEqual 0 0].

(** [ArrayOf<int> a(3, 5), b(4, 5); a = std::move(b);] *)
Definition program_with_a_move : list (stmt Z Z) :=
  [NewArrayOf 0 3 5%Z Alloc_default; NewArrayOf 1 4 5%Z Alloc_default; MoveAssign 0 1].

(** ** The primitives, step by step *)

Section StoreFacts.
Context {T : Type}.
Implicit Types (s : state T) (b : N) (i : size_type) (al : Alloc)
  (slots : list (option T)) (p : pointer).

Lemma bind_ret_step {A B} (m : M T A) (k : A -> M T B) s a s' :
  m s = Ret a s' -> bind m k s = k a s'.
Proof. intros H. unfold bind. by rewrite H. Qed.

Lemma bind_throw_step {A B} (m : M T A) (k : A -> M T B) s e s' :
  m s = Throw e s' -> bind m k s = Throw e s'.
Proof. intros H. unfold bind. by rewrite H. Qed.

Lemma slot_of_block s b al slots i :
  heap s !! b = Some (MkBlock al slots) ->
  slot_of s b i = slots !! N.to_nat i.
Proof. intros H. unfold slot_of. by rewrite H. Qed.

Lemma set_slot_block s b al slots i x :
  heap s !! b = Some (MkBlock al slots) ->
  set_slot b i x s =
  set_heap (<[b := MkBlock al (<[N.to_nat i := x]> slots)]> (heap s)) s.
Proof.
  intros H. unfold set_slot. f_equal. apply map_eq. intros j.
  destruct (decide (b = j)) as [->|Hne].
  - by rewrite lookup_alter_eq, lookup_insert_eq, H.
  - by rewrite lookup_alter_ne, lookup_insert_ne.
Qed.

Lemma construct_at_ok s b al slots i v :
  heap s !! b = Some (MkBlock al slots) ->
  (N.to_nat i < length slots)%nat ->
  budget_ok 1 s ->
  construct_at (Ptr b i) v s =
  Ret tt (MkState (<[b := MkBlock al (<[N.to_nat i := Some v]> slots)]> (heap s))
                  (next_block s) (trace s ++ [EvConstruct b i v])
                  (spend 1 (throw_after s))).
Proof.
  intros Hb Hi Hk. unfold construct_at.
  rewrite (slot_of_block _ _ _ _ _ Hb).
  destruct (lookup_lt_is_Some_2 slots (N.to_nat i) Hi) as [x ->].
  rewrite (set_slot_block _ b al slots i None Hb).
  unfold bind, element_ctor_guard, budget_ok in *. simpl.
  destruct (throw_after s) as [[|j]|] eqn:Hth; [lia| |].
  - erewrite set_slot_block by (simpl; apply lookup_insert_eq).
    unfold log, set_heap, spend; simpl.
    rewrite insert_insert_eq, list_insert_insert_eq. do 2 f_equal. f_equal. lia.
  - erewrite set_slot_block by (simpl; apply lookup_insert_eq).
    unfold log, set_heap, spend; simpl.
    by rewrite insert_insert_eq, list_insert_insert_eq, Hth.
Qed.

Lemma construct_at_throws s b al slots i v :
  heap s !! b = Some (MkBlock al slots) ->
  (N.to_nat i < length slots)%nat ->
  throw_after s = Some O ->
  construct_at (Ptr b i) v s =
  Throw element_failure
        (MkState (<[b := MkBlock al (<[N.to_nat i := None]> slots)]> (heap s))
                 (next_block s) (trace s) None).
Proof.
  intros Hb Hi Hk. unfold construct_at.
  rewrite (slot_of_block _ _ _ _ _ Hb).
  destruct (lookup_lt_is_Some_2 slots (N.to_nat i) Hi) as [x ->].
  rewrite (set_slot_block _ b al slots i None Hb).
  unfold bind, element_ctor_guard. simpl. by rewrite Hk.
Qed.

Lemma destroy_at_ok s b al slots i v :
  heap s !! b = Some (MkBlock al slots) ->
  slots !! N.to_nat i = Some (Some v) ->
  destroy_at (Ptr b i) s =
  Ret tt (MkState (<[b := MkBlock al (<[N.to_nat i := None]> slots)]> (heap s))
                  (next_block s) (trace s ++ [EvDestroy b i]) (throw_after s)).
Proof.
  intros Hb Hi. unfold destroy_at.
  rewrite (slot_of_block _ _ _ _ _ Hb), Hi.
  by rewrite (set_slot_block _ b al slots).
Qed.

Lemma load_ok s b al slots i v :
  heap s !! b = Some (MkBlock al slots) ->
  slots !! N.to_nat i = Some (Some v) ->
  load (Ptr b i) s = Ret v s.
Proof.
  intros Hb Hi. unfold load. by rewrite (slot_of_block _ _ _ _ _ Hb), Hi.
Qed.

Lemma store_ok s b al slots i v w :
  heap s !! b = Some (MkBlock al slots) ->
  slots !! N.to_nat i = Some (Some v) ->
  store (Ptr b i) w s =
  Ret tt (set_heap (<[b := MkBlock al (<[N.to_nat i := Some w]> slots)]> (heap s)) s).
Proof.
  intros Hb Hi. unfold store.
  rewrite (slot_of_block _ _ _ _ _ Hb), Hi.
  by rewrite (set_slot_block _ b al slots).
Qed.

Lemma deallocate_ok s a b slots n :
  heap s !! b = Some (MkBlock a slots) ->
  length slots = N.to_nat n ->
  deallocate a (Ptr b 0) n s =
  Ret tt (MkState (delete b (heap s)) (next_block s)
                  (trace s ++ [EvDeallocate a b n]) (throw_after s)).
Proof.
  intros Hb Hn. unfold deallocate. rewrite Hb. simpl.
  by rewrite decide_True.
Qed.

Lemma write_from_length xs : forall cur slots,
  length (write_from cur xs slots) = length slots.
Proof.
  induction xs as [|x xs IH]; intros cur slots; simpl; [done|].
  by rewrite IH, length_insert.
Qed.

Lemma write_from_lookup_lt xs : forall cur slots j,
  (j < cur)%nat -> write_from cur xs slots !! j = slots !! j.
Proof.
  induction xs as [|x xs IH]; intros cur slots j Hj; simpl; [done|].
  rewrite IH by lia. apply list_lookup_insert_ne. lia.
Qed.

Lemma write_from_lookup_in xs : forall cur slots j x,
  (cur + length xs <= length slots)%nat ->
  xs !! j = Some x -> write_from cur xs slots !! (cur + j)%nat = Some x.
Proof.
  induction xs as [|y xs IH]; intros cur slots j x Hlen Hj; simpl in *; [done|].
  destruct j as [|j]; simpl in Hj.
  - injection Hj as ->. rewrite Nat.add_0_r, write_from_lookup_lt by lia.
    apply list_lookup_insert_eq. lia.
  - replace (cur + S j)%nat with (S cur + j)%nat by lia.
    apply IH; [rewrite length_insert; lia|done].
Qed.

Lemma write_from_lookup_ge xs : forall cur slots j,
  (cur + length xs <= j)%nat -> write_from cur xs slots !! j = slots !! j.
Proof.
  induction xs as [|y xs IH]; intros cur slots j Hj; simpl in *; [done|].
  rewrite IH by lia. apply list_lookup_insert_ne. lia.
Qed.

Lemma write_from_all xs slots :
  length xs = length slots -> write_from 0 xs slots = xs.
Proof.
  intros Hlen. apply list_eq. intros j.
  destruct (xs !! j) as [x|] eqn:Hj.
  - apply (write_from_lookup_in xs 0 slots j x); [lia|done].
  - apply lookup_ge_None. rewrite write_from_length.
    apply lookup_ge_None in Hj. lia.
Qed.

Lemma write_from_insert xs : forall cur slots x,
  write_from (S cur) xs (<[cur := x]> slots) = write_from cur (x :: xs) slots.
Proof. done. Qed.

Lemma all_live_Some slots (vs : list T) :
  all_live slots = Some vs <-> slots = Some <$> vs.
Proof.
  revert vs. induction slots as [|[v|] slots IH]; intros vs; simpl.
  - split; [intros [= <-]; done|]. by destruct vs.
  - destruct (all_live slots) as [ws|] eqn:Hw; simpl.
    + split.
      * intros [= <-]. simpl. f_equal. by apply IH.
      * destruct vs as [|v' vs]; [done|]. simpl. intros [= -> Hs].
        apply IH in Hs. by injection Hs as ->.
    + split; [done|]. destruct vs as [|v' vs]; [done|]. simpl.
      intros [= -> Hs]. apply IH in Hs. done.
  - split; [done|]. by destruct vs.
Qed.

Lemma contents_Some s p n (vs : list T) :
  contents s p n = Some vs <->
  exists b al, p = Ptr b 0 /\ heap s !! b = Some (MkBlock al (Some <$> vs)) /\
               n = N.of_nat (length vs).
Proof.
  unfold contents. split.
  - destruct p as [|b [|off]]; [done| |done].
    destruct (heap s !! b) as [[al slots]|] eqn:Hb; [|done]. simpl.
    case_decide as Hlen; [|done]. intros Hs. apply all_live_Some in Hs. subst slots.
    exists b, al. split_and!; [done..|]. rewrite length_fmap in Hlen. lia.
  - intros (b & al & -> & Hb & ->). rewrite Hb. simpl.
    rewrite decide_True by (rewrite length_fmap; lia).
    by apply all_live_Some.
Qed.
End StoreFacts.

(** ** The loops *)

Section LoopFacts.
Context {T : Type} `{!Element T}.
Implicit Types (s : state T) (b : N) (al : Alloc) (slots : list (option T)).

Lemma state_eta s : MkState (heap s) (next_block s) (trace s) (throw_after s) = s.
Proof. by destruct s. Qed.

Lemma spend_0 o : spend 0 o = o.
Proof. destruct o; simpl; [f_equal; lia|done]. Qed.

Lemma spend_spend j k o : spend k (spend j o) = spend (j + k) o.
Proof. destruct o; simpl; [f_equal; lia|done]. Qed.

Lemma budget_ok_step k s (h : gmap N (block T)) n tr :
  budget_ok (S k) s ->
  budget_ok k (MkState h n tr (spend 1 (throw_after s))).
Proof. unfold budget_ok. simpl. destruct (throw_after s); simpl; lia. Qed.

Lemma budget_ok_le j k s : (j <= k)%nat -> budget_ok k s -> budget_ok j s.
Proof. unfold budget_ok. destruct (throw_after s); lia. Qed.

Lemma uninitialized_fill_from_ok (x : T) b al : forall k cur s slots,
  heap s !! b = Some (MkBlock al slots) ->
  (N.to_nat cur + k <= length slots)%nat ->
  budget_ok k s ->
  uninitialized_fill_from (Ptr b 0) cur k x s =
  Ret tt (MkState
            (<[b := MkBlock al (write_from (N.to_nat cur) (replicate k (Some x)) slots)]>
               (heap s))
            (next_block s) (trace s ++ construct_events b cur (replicate k x))
            (spend k (throw_after s))).
Proof.
  induction k as [|k IH]; intros cur s slots Hb Hlen Hk; simpl.
  - rewrite insert_id, app_nil_r, spend_0 by done. unfold ret. by rewrite state_eta.
  - unfold on_throw.
    rewrite (bind_ret_step _ _ s tt
      (MkState (<[b := MkBlock al (<[N.to_nat cur := Some x]> slots)]> (heap s))
               (next_block s) (trace s ++ [EvConstruct b cur x])
               (spend 1 (throw_after s)))).
    2:{ rewrite (construct_at_ok s b al slots) by
          (done || lia || by apply (budget_ok_le 1 (S k)); [lia|]).
        done. }
    rewrite (IH _ _ (<[N.to_nat cur := Some x]> slots)); simpl.
    + rewrite insert_insert_eq, <- app_assoc, spend_spend. simpl.
      by replace (N.to_nat (cur + 1)) with (S (N.to_nat cur)) by lia.
    + apply lookup_insert_eq.
    + rewrite length_insert. lia.
    + by apply budget_ok_step.
Qed.

Lemma destroy_n_ok b al : forall k cur s slots,
  heap s !! b = Some (MkBlock al slots) ->
  (forall j, (N.to_nat cur <= j < N.to_nat cur + k)%nat ->
             exists v, slots !! j = Some (Some v)) ->
  destroy_n (Ptr b 0) cur k s =
  Ret tt (MkState
            (<[b := MkBlock al (write_from (N.to_nat cur) (replicate k None) slots)]>
               (heap s))
            (next_block s) (trace s ++ destroy_events b cur k) (throw_after s)).
Proof.
  induction k as [|k IH]; intros cur s slots Hb Hlive; simpl.
  - rewrite insert_id, app_nil_r by done. unfold ret. by rewrite state_eta.
  - destruct (Hlive (N.to_nat cur)) as [v Hv]; [lia|].
    rewrite (bind_ret_step _ _ s tt _ (destroy_at_ok s b al slots cur v Hb Hv)).
    rewrite (IH _ _ (<[N.to_nat cur := None]> slots)); simpl.
    + rewrite insert_insert_eq, <- app_assoc. simpl.
      by replace (N.to_nat (cur + 1)) with (S (N.to_nat cur)) by lia.
    + apply lookup_insert_eq.
    + intros j Hj. rewrite list_lookup_insert_ne by lia. apply Hlive. lia.
Qed.

Lemma equal_from_ok (first1 first2 : pointer) b1 b2 al1 al2 (vs ws : list T) s :
  first1 = Ptr b1 0 -> first2 = Ptr b2 0 ->
  heap s !! b1 = Some (MkBlock al1 (Some <$> vs)) ->
  heap s !! b2 = Some (MkBlock al2 (Some <$> ws)) ->
  (length vs <= length ws)%nat ->
  forall k cur, (N.to_nat cur + k = length vs)%nat ->
  equal_from first1 first2 cur k s =
  Ret (prefix_eqb (drop (N.to_nat cur) vs) (drop (N.to_nat cur) ws)) s.
Proof.
  intros -> -> H1 H2 Hlen. induction k as [|k IH]; intros cur Hk; simpl.
  - by rewrite drop_ge by lia.
  - destruct (lookup_lt_is_Some_2 vs (N.to_nat cur)) as [v Hv]; [lia|].
    destruct (lookup_lt_is_Some_2 ws (N.to_nat cur)) as [w Hw]; [lia|].
    rewrite (bind_ret_step _ _ s v s).
    2:{ apply (load_ok s b1 al1 (Some <$> vs)); [done|].
        by rewrite N.add_0_l, list_lookup_fmap, Hv. }
    rewrite (bind_ret_step _ _ s w s).
    2:{ apply (load_ok s b2 al2 (Some <$> ws)); [done|].
        by rewrite N.add_0_l, list_lookup_fmap, Hw. }
    rewrite (drop_S vs v _ Hv), (drop_S ws w _ Hw). simpl.
    destruct (T_eqb v w); [|done].
    rewrite IH by lia.
    by replace (N.to_nat (cur + 1)) with (S (N.to_nat cur)) by lia.
Qed.

Lemma live_slots (vs : list T) (cur : size_type) k j :
  (N.to_nat cur + k <= length vs)%nat ->
  (N.to_nat cur <= j < N.to_nat cur + k)%nat ->
  exists v, (Some <$> vs) !! j = Some (Some v).
Proof.
  intros Hlen Hj. destruct (lookup_lt_is_Some_2 vs j) as [v Hv]; [lia|].
  exists v. by rewrite list_lookup_fmap, Hv.
Qed.

Lemma uninitialized_fill_from_throws (x : T) b al : forall k j cur s slots,
  heap s !! b = Some (MkBlock al slots) ->
  (N.to_nat cur + k <= length slots)%nat ->
  throw_after s = Some j -> (j < k)%nat ->
  (forall i, (i < N.to_nat cur)%nat -> exists v, slots !! i = Some (Some v)) ->
  uninitialized_fill_from (Ptr b 0) cur k x s =
  Throw element_failure
    (MkState
       (<[b := MkBlock al
                 (write_from 0 (replicate (N.to_nat cur + j) None)
                    (<[(N.to_nat cur + j)%nat := None]>
                       (write_from (N.to_nat cur) (replicate j (Some x)) slots)))]>
          (heap s))
       (next_block s)
       (trace s ++ construct_events b cur (replicate j x)
          ++ destroy_events b 0 (N.to_nat cur + j))
       None).
Proof.
  induction k as [|k IH]; intros j cur s slots Hb Hlen Hth Hj Hlive; [lia|].
  simpl. unfold on_throw. destruct j as [|j].
  - erewrite bind_throw_step; [done|].
    rewrite N.add_0_l, (construct_at_throws s b al slots) by (done || lia).
    erewrite bind_ret_step.
    2:{ apply (destroy_n_ok b al (N.to_nat cur) 0 _ (<[N.to_nat cur := None]> slots));
          [apply lookup_insert_eq|].
        intros i Hi. simpl in Hi. rewrite list_lookup_insert_ne by lia.
        apply Hlive. lia. }
    unfold throw. simpl. by rewrite insert_insert_eq, Nat.add_0_r.
  - rewrite (bind_ret_step _ _ s tt
      (MkState (<[b := MkBlock al (<[N.to_nat cur := Some x]> slots)]> (heap s))
               (next_block s) (trace s ++ [EvConstruct b cur x]) (Some j))).
    2:{ rewrite (construct_at_ok s b al slots) by
          (done || lia || (unfold budget_ok; rewrite Hth; lia)).
        rewrite Hth. simpl. do 3 f_equal. lia. }
    rewrite (IH j _ _ (<[N.to_nat cur := Some x]> slots)); simpl.
    + rewrite insert_insert_eq, <- app_assoc. simpl.
      replace (N.to_nat (cur + 1)) with (S (N.to_nat cur)) by lia.
      by replace (N.to_nat cur + S j)%nat with (S (N.to_nat cur + j)) by lia.
    + apply lookup_insert_eq.
    + rewrite length_insert. lia.
    + done.
    + lia.
    + intros i Hi. destruct (decide (i = N.to_nat cur)) as [->|Hne].
      * exists x. apply list_lookup_insert_eq. lia.
      * rewrite list_lookup_insert_ne by done. apply Hlive. lia.
Qed.

Lemma write_then_clear (x : T) (j k : nat) :
  (j < k)%nat ->
  write_from 0 (replicate j None)
    (<[j := None]> (write_from 0 (replicate j (Some x)) (replicate k None)))
  = replicate k None.
Proof.
  intros Hjk. apply list_eq. intros i.
  destruct (decide (i < j)%nat) as [Hi|Hi].
  - rewrite (write_from_lookup_in (replicate j None) 0 _ i None).
    + symmetry. apply lookup_replicate_2. lia.
    + rewrite length_insert, write_from_length, !length_replicate. simpl. lia.
    + apply lookup_replicate_2. lia.
  - rewrite write_from_lookup_ge by (rewrite length_replicate; simpl; lia).
    destruct (decide (i = j)) as [->|Hne].
    + rewrite list_lookup_insert_eq
        by (rewrite write_from_length, length_replicate; lia).
      symmetry. apply lookup_replicate_2. lia.
    + rewrite list_lookup_insert_ne by done.
      by rewrite write_from_lookup_ge by (rewrite length_replicate; simpl; lia).
Qed.

Lemma swap_ranges_from_ok b1 b2 al1 al2 :
  b1 <> b2 -> forall k cur s (sa sb : list (option T)),
  heap s !! b1 = Some (MkBlock al1 sa) ->
  heap s !! b2 = Some (MkBlock al2 sb) ->
  (forall j, (N.to_nat cur <= j < N.to_nat cur + k)%nat ->
             exists v, sa !! j = Some (Some v)) ->
  (forall j, (N.to_nat cur <= j < N.to_nat cur + k)%nat ->
             exists v, sb !! j = Some (Some v)) ->
  exists s',
    swap_ranges_from (Ptr b1 0) (Ptr b2 0) cur k s = Ret tt s' /\
    heap s' !! b1 = Some (MkBlock al1
      (write_from (N.to_nat cur) (take k (drop (N.to_nat cur) sb)) sa)) /\
    heap s' !! b2 = Some (MkBlock al2
      (write_from (N.to_nat cur) (take k (drop (N.to_nat cur) sa)) sb)) /\
    (forall b, b <> b1 -> b <> b2 -> heap s' !! b = heap s !! b) /\
    trace s' = trace s /\ next_block s' = next_block s /\
    throw_after s' = throw_after s.
Proof.
  intros Hne. induction k as [|k IH]; intros cur s sa sb H1 H2 La Lb; simpl.
  - exists s. by split_and!.
  - destruct (La (N.to_nat cur)) as [x Hx]; [lia|].
    destruct (Lb (N.to_nat cur)) as [y Hy]; [lia|].
    rewrite (bind_ret_step _ _ s x s)
      by (apply (load_ok s b1 al1 sa); [done|by rewrite N.add_0_l]).
    rewrite (bind_ret_step _ _ s y s)
      by (apply (load_ok s b2 al2 sb); [done|by rewrite N.add_0_l]).
    simpl.
    rewrite (bind_ret_step _ _ s tt _ (store_ok s b1 al1 sa cur x y H1 Hx)).
    set (s1 := set_heap _ s).
    assert (heap s1 !! b2 = Some (MkBlock al2 sb)) as H2'
      by (subst s1; simpl; by rewrite lookup_insert_ne).
    rewrite (bind_ret_step _ _ s1 tt _ (store_ok s1 b2 al2 sb cur y x H2' Hy)).
    set (s2 := set_heap _ s1).
    destruct (IH (cur + 1) s2 (<[N.to_nat cur := Some y]> sa)
                 (<[N.to_nat cur := Some x]> sb)) as (s' & Hrun & Ha & Hb & Hfr & Htr & Hnb & Hth).
    + subst s2 s1. simpl. rewrite lookup_insert_ne by done. apply lookup_insert_eq.
    + subst s2 s1. simpl. apply lookup_insert_eq.
    + intros j Hj. rewrite list_lookup_insert_ne by lia. apply La. lia.
    + intros j Hj. rewrite list_lookup_insert_ne by lia. apply Lb. lia.
    + exists s'. split; [done|].
      replace (N.to_nat (cur + 1)) with (S (N.to_nat cur)) in Ha, Hb by lia.
      rewrite drop_insert_lt in Ha, Hb by lia.
      rewrite (drop_S sb (Some y) _ Hy), (drop_S sa (Some x) _ Hx). simpl.
      split_and!; [done..| | | |].
      * intros b Hb1 Hb2. rewrite Hfr by done. subst s2 s1. simpl.
        by rewrite !lookup_insert_ne.
      * by rewrite Htr.
      * by rewrite Hnb.
      * by rewrite Hth.
Qed.

Lemma swap_ranges_from_self b al slots s :
  heap s !! b = Some (MkBlock al slots) ->
  forall k cur,
  (forall j, (N.to_nat cur <= j < N.to_nat cur + k)%nat ->
             exists v, slots !! j = Some (Some v)) ->
  swap_ranges_from (Ptr b 0) (Ptr b 0) cur k s = Ret tt s.
Proof.
  intros Hb. induction k as [|k IH]; intros cur Hlive; simpl; [done|].
  destruct (Hlive (N.to_nat cur)) as [x Hx]; [lia|].
  assert (store (Ptr b cur) x s = Ret tt s) as Hst.
  { rewrite (store_ok s b al slots cur x x Hb Hx).
    rewrite list_insert_id, insert_id by done. unfold set_heap.
    by rewrite state_eta. }
  rewrite !(bind_ret_step _ _ s x s)
    by (apply (load_ok s b al slots); [done|by rewrite N.add_0_l]).
  simpl. rewrite !(bind_ret_step _ _ s tt s Hst).
  apply IH. intros j Hj. apply Hlive. lia.
Qed.

Lemma construct_from_ok {Args} `{!Constructible Args T}
    (this : CollectionOf.t) b al :
  CollectionOf.ptr_ this = Ptr b 0 -> forall k (args : Args) cur s slots,
  heap s !! b = Some (MkBlock al slots) ->
  (N.to_nat cur + k <= length slots)%nat ->
  budget_ok k s ->
  CollectionOf.construct_from this args cur k s =
  Ret tt (MkState
            (<[b := MkBlock al (write_from (N.to_nat cur)
                                 (Some <$> CollectionOf.construct_values args k) slots)]>
               (heap s))
            (next_block s)
            (trace s ++ construct_events b cur (CollectionOf.construct_values args k))
            (spend k (throw_after s))).
Proof.
  intros Hp. induction k as [|k IH]; intros args cur s slots Hb Hlen Hk; simpl.
  - rewrite insert_id, app_nil_r, spend_0 by done. unfold ret. by rewrite state_eta.
  - destruct (T_construct args) as [v args'] eqn:Hc. rewrite Hp.
    rewrite (bind_ret_step _ _ s tt
      (MkState (<[b := MkBlock al (<[N.to_nat cur := Some v]> slots)]> (heap s))
               (next_block s) (trace s ++ [EvConstruct b cur v])
               (spend 1 (throw_after s)))).
    2:{ change (ptr_add (Ptr b 0) cur) with (Ptr b cur).
        rewrite (construct_at_ok s b al slots) by
          (done || lia || by apply (budget_ok_le 1 (S k)); [lia|]).
        done. }
    rewrite (IH _ _ _ (<[N.to_nat cur := Some v]> slots)); simpl.
    + rewrite insert_insert_eq, <- app_assoc, spend_spend. simpl.
      by replace (N.to_nat (cur + 1)) with (S (N.to_nat cur)) by lia.
    + apply lookup_insert_eq.
    + rewrite length_insert. lia.
    + by apply budget_ok_step.
Qed.

Lemma allocate_ok (a : Alloc) (n : size_type) s :
  n <= max_size a ->
  allocate a n s =
  Ret (Ptr (next_block s) 0)
      (MkState (<[next_block s := MkBlock a (replicate (N.to_nat n) None)]> (heap s))
               (N.succ (next_block s)) (trace s ++ [EvAllocate a (next_block s) n])
               (throw_after s)).
Proof.
  intros Hn. unfold allocate. by rewrite (proj2 (N.leb_le _ _) Hn).
Qed.

Lemma distance_begin_end b (n : size_type) :
  distance (Ptr b 0) (ptr_add (Ptr b 0) n) = Some n.
Proof.
  simpl. rewrite decide_True by (split; [done|lia]). f_equal. lia.
Qed.

Lemma in_bounds_block s b al (slots : list (option T)) (n : size_type) :
  heap s !! b = Some (MkBlock al slots) ->
  in_bounds s (Ptr b 0) n = bool_decide (N.to_nat n <= length slots)%nat.
Proof. intros H. unfold in_bounds. by rewrite H. Qed.
End LoopFacts.

(** ** The log *)

Section TraceFacts.
Context {T : Type} `{!Element T}.
Implicit Types (s : state T) (tr : list (event T)).

Lemma count_events_app (f : event T -> bool) s s' tr :
  trace s' = trace s ++ tr ->
  count_events f s' = (count_events f s + length (List.filter f tr))%nat.
Proof.
  intros Htr. unfold count_events. by rewrite Htr, List.filter_app, length_app.
Qed.

Lemma construct_events_length b (vs : list T) : forall cur,
  length (construct_events b cur vs) = length vs.
Proof. induction vs as [|v vs IH]; intros cur; simpl; [done|by rewrite IH]. Qed.

Lemma construct_events_count b (vs : list T) : forall cur,
  List.filter is_construct (construct_events b cur vs) = construct_events b cur vs /\
  List.filter is_destroy (construct_events b cur vs) = [] /\
  List.filter is_deallocate (construct_events b cur vs) = [].
Proof.
  induction vs as [|v vs IH]; intros cur; simpl; [done|].
  destruct (IH (cur + 1)) as (-> & -> & ->). done.
Qed.

Lemma destroy_events_length b k : forall cur,
  length (destroy_events (T:=T) b cur k) = k.
Proof. induction k as [|k IH]; intros cur; simpl; [done|by rewrite IH]. Qed.

Lemma destroy_events_count b k : forall cur,
  List.filter is_construct (destroy_events (T:=T) b cur k) = [] /\
  List.filter is_destroy (destroy_events (T:=T) b cur k) = destroy_events b cur k /\
  List.filter is_deallocate (destroy_events (T:=T) b cur k) = [].
Proof.
  induction k as [|k IH]; intros cur; simpl; [done|].
  destruct (IH (cur + 1)) as (-> & -> & ->). done.
Qed.

(** The [i]-th destruction of the loop is that of slot [cur + i]. *)
Lemma destroy_events_lookup b k : forall cur i,
  (i < k)%nat ->
  destroy_events (T:=T) b cur k !! i = Some (EvDestroy b (cur + N.of_nat i)).
Proof.
  induction k as [|k IH]; intros cur i Hi; [lia|]. destruct i as [|i]; simpl.
  - by rewrite N.add_0_r.
  - rewrite IH by lia. do 2 f_equal. lia.
Qed.

Lemma construct_events_lookup b (vs : list T) : forall cur i v,
  vs !! i = Some v ->
  construct_events b cur vs !! i = Some (EvConstruct b (cur + N.of_nat i) v).
Proof.
  induction vs as [|w vs IH]; intros cur i v Hi; [done|]. destruct i as [|i]; simpl in *.
  - injection Hi as ->. by rewrite N.add_0_r.
  - rewrite (IH _ _ v) by done. do 2 f_equal. lia.
Qed.
End TraceFacts.

(** ** ArrayOf *)

Section ArrayOfFacts.
Context {T : Type} `{!Element T}.
Implicit Types (s : state T) (a b : ArrayOf.t) (v : T) (n : size_type).

Lemma ArrayOf_ctor_ok n v (al : Alloc) s :
  n <= max_size al -> budget_ok (N.to_nat n) s ->
  ArrayOf.ctor n v al s =
  Ret (ArrayOf.Mk n (Ptr (next_block s) 0) (ArrayOf.MkDeleter al))
      (MkState (<[next_block s := MkBlock al (replicate (N.to_nat n) (Some v))]> (heap s))
               (N.succ (next_block s))
               (trace s ++ EvAllocate al (next_block s) n
                  :: construct_events (next_block s) 0 (replicate (N.to_nat n) v))
               (spend (N.to_nat n) (throw_after s))).
Proof.
  intros Hn Hk. unfold ArrayOf.ctor. simpl.
  rewrite (bind_ret_step _ _ s _ _ (allocate_ok al n s Hn)).
  unfold uninitialized_fill_n.
  erewrite bind_ret_step.
  2:{ apply (uninitialized_fill_from_ok v (next_block s) al (N.to_nat n) 0 _
               (replicate (N.to_nat n) None)); simpl.
      - apply lookup_insert_eq.
      - rewrite length_replicate. lia.
      - done. }
  unfold ret. simpl.
  rewrite insert_insert_eq, <- app_assoc, write_from_all
    by (by rewrite !length_replicate).
  done.
Qed.

(** The three-argument constructor: the array has the requested length and
    every slot holds a copy of the fill value. *)
Lemma ArrayOf_ctor_spec n v (al : Alloc) s :
  n <= max_size al -> budget_ok (N.to_nat n) s ->
  exists a s', ArrayOf.ctor n v al s = Ret a s' /\
    ArrayOf.length a = n /\
    ArrayOf.elements s' a = Some (replicate (N.to_nat n) v).
Proof.
  intros Hn Hk. eexists _, _. split; [by apply ArrayOf_ctor_ok|]. split; [done|].
  apply contents_Some. exists (next_block s), al. simpl.
  rewrite lookup_insert_eq, fmap_replicate, length_replicate.
  split_and!; [done..|lia].
Qed.

(** [ArrayOf(n)] and [ArrayOf(n, v)] delegate with the parameter [length]. *)
Lemma ArrayOf_ctor_n_spec n s :
  n <= max_size Alloc_default -> budget_ok (N.to_nat n) s ->
  exists a s', ArrayOf.ctor_n n s = Ret a s' /\
    ArrayOf.length a = n /\
    ArrayOf.elements s' a = Some (replicate (N.to_nat n) T_default).
Proof. apply ArrayOf_ctor_spec. Qed.

Lemma ArrayOf_ctor_value_spec n v s :
  n <= max_size std_allocator -> budget_ok (N.to_nat n) s ->
  exists a s', ArrayOf.ctor_value n v s = Ret a s' /\
    ArrayOf.length a = n /\
    ArrayOf.elements s' a = Some (replicate (N.to_nat n) v).
Proof. apply ArrayOf_ctor_spec. Qed.

(** The allocator overload builds an array of the length it read from the
    uninitialised member, whatever [length] it was given. *)
Lemma ArrayOf_ctor_alloc_spec (u : size_type) n (al : Alloc) s :
  u <= max_size al -> budget_ok (N.to_nat u) s ->
  exists a s', ArrayOf.ctor_alloc u n al s = Ret a s' /\
    ArrayOf.length a = u /\
    ArrayOf.elements s' a = Some (replicate (N.to_nat u) T_default).
Proof. apply ArrayOf_ctor_spec. Qed.

(** When the copy for slot [j] throws, the constructor lets the exception
    out with the [j] slots built so far destroyed again and the block still
    allocated: the log has no [deallocate] for it. *)
Lemma ArrayOf_ctor_throws_keeps_block n v (al : Alloc) s (j : nat) :
  n <= max_size al -> throw_after s = Some j -> (j < N.to_nat n)%nat ->
  exists s', ArrayOf.ctor n v al s = Throw element_failure s' /\
    heap s' !! next_block s = Some (MkBlock al (replicate (N.to_nat n) None)) /\
    trace s' = trace s ++ EvAllocate al (next_block s) n
                 :: construct_events (next_block s) 0 (replicate j v)
                 ++ destroy_events (next_block s) 0 j /\
    count_events is_destroy s' = (count_events is_destroy s + j)%nat /\
    count_events is_deallocate s' = count_events is_deallocate s.
Proof.
  intros Hn Hth Hj. unfold ArrayOf.ctor. simpl.
  rewrite (bind_ret_step _ _ s _ _ (allocate_ok al n s Hn)).
  unfold uninitialized_fill_n.
  eexists. split.
  - erewrite bind_throw_step; [done|].
    apply (uninitialized_fill_from_throws v (next_block s) al (N.to_nat n) j 0 _
             (replicate (N.to_nat n) None)); simpl; try done.
    + apply lookup_insert_eq.
    + rewrite length_replicate. lia.
    + lia.
  - simpl. rewrite insert_insert_eq, lookup_insert_eq, write_then_clear by lia.
    rewrite <- app_assoc. split_and!; [done..| |].
    + unfold count_events. simpl.
      rewrite !List.filter_app. simpl. rewrite List.filter_app.
      destruct (construct_events_count (next_block s) (replicate j v) 0) as (_ & -> & _).
      destruct (destroy_events_count (T:=T) (next_block s) j 0) as (_ & -> & _).
      simpl. by rewrite length_app, destroy_events_length.
    + unfold count_events. simpl.
      rewrite !List.filter_app. simpl. rewrite List.filter_app.
      destruct (construct_events_count (next_block s) (replicate j v) 0) as (_ & _ & ->).
      destruct (destroy_events_count (T:=T) (next_block s) j 0) as (_ & _ & ->).
      simpl. by rewrite length_app, Nat.add_0_r.
Qed.

Lemma ArrayOf_fill_spec a v s (vs : list T) :
  ArrayOf.elements s a = Some vs -> budget_ok (length vs) s ->
  exists s', ArrayOf.fill a v s = Ret a s' /\
    ArrayOf.elements s' a = Some (replicate (length vs) v).
Proof.
  intros Ha Hk. apply contents_Some in Ha as (b & al & Hp & Hb & Hn).
  unfold ArrayOf.fill, uninitialized_fill_n. rewrite Hp, Hn, Nat2N.id.
  eexists. split.
  - erewrite bind_ret_step; [done|].
    apply (uninitialized_fill_from_ok v b al (length vs) 0 s (Some <$> vs));
      [done|rewrite length_fmap; simpl; lia|done].
  - unfold ArrayOf.elements. rewrite Hp, Hn. apply contents_Some.
    exists b, al. simpl. rewrite lookup_insert_eq.
    rewrite write_from_all by (by rewrite length_replicate, length_fmap).
    by rewrite fmap_replicate, length_replicate.
Qed.

(** The destructor releases the block when the array's allocator is the one
    that allocated it, and has no defined behaviour when it is another. *)
Lemma ArrayOf_dtor_ok a (b : N) slots s :
  ArrayOf.ptr_ a = Ptr b 0 ->
  heap s !! b = Some (MkBlock (ArrayOf.alloc (ArrayOf.d_ a)) slots) ->
  length slots = N.to_nat (ArrayOf.length_ a) ->
  ArrayOf.dtor a s =
  Ret tt (MkState (delete b (heap s)) (next_block s)
            (trace s ++ [EvDeallocate (ArrayOf.alloc (ArrayOf.d_ a)) b (ArrayOf.length_ a)])
            (throw_after s)).
Proof.
  intros Hp Hb Hlen. unfold ArrayOf.dtor, ArrayOf.Deleter_call. rewrite Hp.
  rewrite decide_False by done. by apply (deallocate_ok s _ b slots).
Qed.

Lemma ArrayOf_dtor_foreign_allocator a (b : N) (al : Alloc) slots s :
  ArrayOf.ptr_ a = Ptr b 0 ->
  heap s !! b = Some (MkBlock al slots) ->
  al <> ArrayOf.alloc (ArrayOf.d_ a) ->
  ArrayOf.dtor a s = Undef.
Proof.
  intros Hp Hb Hne. unfold ArrayOf.dtor, ArrayOf.Deleter_call. rewrite Hp.
  rewrite decide_False by done. unfold deallocate. rewrite Hb. simpl.
  by rewrite decide_False by (by intros [? _]).
Qed.

End ArrayOfFacts.

Section ArrayOfClaims.
Context {T : Type} `{!Element T}.
Implicit Types (s : state T) (a b src dst : ArrayOf.t) (v : T) (n : size_type).

(** Move-assignment hands the storage pointer, the length, the allocator
    and with them the element values to the destination and leaves the
    source with the destination's former storage and length, which is other
    storage than its own whenever the two arrays were distinct, and with
    the allocator it had.  The move does not touch the store. *)
Lemma ArrayOf_move_spec : forall src dst s,
  ArrayOf.data (ArrayOf.move_assign dst src).1 = ArrayOf.data src /\
  ArrayOf.length (ArrayOf.move_assign dst src).1 = ArrayOf.length src /\
  ArrayOf.elements s (ArrayOf.move_assign dst src).1 = ArrayOf.elements s src /\
  ArrayOf.alloc (ArrayOf.d_ (ArrayOf.move_assign dst src).1)
    = ArrayOf.alloc (ArrayOf.d_ src) /\
  ArrayOf.data (ArrayOf.move_assign dst src).2 = ArrayOf.data dst /\
  ArrayOf.length (ArrayOf.move_assign dst src).2 = ArrayOf.length dst /\
  ArrayOf.elements s (ArrayOf.move_assign dst src).2 = ArrayOf.elements s dst /\
  ArrayOf.alloc (ArrayOf.d_ (ArrayOf.move_assign dst src).2)
    = ArrayOf.alloc (ArrayOf.d_ src) /\
  (ArrayOf.data dst <> ArrayOf.data src ->
   ArrayOf.data (ArrayOf.move_assign dst src).2 <> ArrayOf.data src).
Proof.
  intros [ls ps ds] [ld pd dd] s. split_and!; try reflexivity. done.
Qed.

(** After a move-assignment the source can be destroyed when its allocator
    is the one the destination's former block came from (so always with
    [std::allocator]): the block is released, once. *)
Lemma ArrayOf_move_assign_source_dtor dst src (b : N) slots s :
  ArrayOf.ptr_ dst = Ptr b 0 ->
  heap s !! b = Some (MkBlock (ArrayOf.alloc (ArrayOf.d_ src)) slots) ->
  length slots = N.to_nat (ArrayOf.length_ dst) ->
  ArrayOf.dtor (ArrayOf.move_assign dst src).2 s =
  Ret tt (MkState (delete b (heap s)) (next_block s)
            (trace s ++ [EvDeallocate (ArrayOf.alloc (ArrayOf.d_ src)) b
                           (ArrayOf.length_ dst)])
            (throw_after s)).
Proof.
  intros Hp Hb Hlen.
  by rewrite (ArrayOf_dtor_ok (ArrayOf.move_assign dst src).2 b slots s).
Qed.
End ArrayOfClaims.

Section SwapClaim.
Context {T : Type} `{!Element T}.
Implicit Types (s : state T) (a b : ArrayOf.t).


End SwapClaim.


(** ** CollectionOf *)

Section CollectionOfFacts.
Context {T : Type} `{!Element T} {Args : Type} `{!Constructible Args T}.
Implicit Types (s : state T) (c : CollectionOf.t) (n : size_type) (args : Args).

Lemma construct_values_length (k : nat) : forall args,
  length (CollectionOf.construct_values args k) = k.
Proof.
  induction k as [|k IH]; intros args; simpl; [done|].
  destruct (T_construct args) as [v args']. simpl. by rewrite IH.
Qed.

(** A pack that construction leaves as it was yields the same value for
    every slot. *)
Lemma construct_values_unconsumed args v (k : nat) :
  T_construct args = (v, args) ->
  CollectionOf.construct_values args k = replicate k v.
Proof.
  intros Hc. induction k as [|k IH]; simpl; [done|]. by rewrite Hc, IH.
Qed.

Lemma CollectionOf_ctor_ok n (al : Alloc) s :
  n <= max_size al ->
  CollectionOf.ctor n al s =
  Ret (CollectionOf.Mk n (Ptr (next_block s) 0) (CollectionOf.MkDeleter al))
      (MkState (<[next_block s := MkBlock al (replicate (N.to_nat n) None)]> (heap s))
               (N.succ (next_block s)) (trace s ++ [EvAllocate al (next_block s) n])
               (throw_after s)).
Proof.
  intros Hn. unfold CollectionOf.ctor. simpl.
  by rewrite (bind_ret_step _ _ s _ _ (allocate_ok al n s Hn)).
Qed.

Lemma CollectionOf_construct_ok c b al slots args s :
  CollectionOf.ptr_ c = Ptr b 0 ->
  heap s !! b = Some (MkBlock al slots) ->
  length slots = N.to_nat (CollectionOf.length_ c) ->
  budget_ok (length slots) s ->
  CollectionOf.construct c args s =
  Ret c (MkState
           (<[b := MkBlock al (Some <$> CollectionOf.construct_values args (length slots))]>
              (heap s))
           (next_block s)
           (trace s ++ construct_events b 0
                         (CollectionOf.construct_values args (length slots)))
           (spend (length slots) (throw_after s))).
Proof.
  intros Hp Hb Hlen Hk. unfold CollectionOf.construct. rewrite <- Hlen.
  erewrite bind_ret_step.
  2:{ by apply (construct_from_ok c b al Hp (length slots) args 0 s slots). }
  unfold ret. simpl.
  by rewrite write_from_all by (by rewrite length_fmap, construct_values_length).
Qed.

(** The destructor's statements with [ptr] naming the storage and [n] a
    count [k] of at most the length, on a collection whose slots are all
    constructed: slots [0 .. k-1] are destroyed, in index order, and the
    block is released. *)
Lemma CollectionOf_dtor_body_ok c b (vs : list T) (k : nat) s :
  CollectionOf.ptr_ c = Ptr b 0 ->
  heap s !! b = Some (MkBlock (CollectionOf.alloc (CollectionOf.d_ c)) (Some <$> vs)) ->
  CollectionOf.length_ c = N.of_nat (length vs) ->
  (k <= length vs)%nat ->
  CollectionOf.dtor_body (N.of_nat k) (CollectionOf.ptr_ c) c s =
  Ret tt (MkState (delete b (heap s)) (next_block s)
            (trace s ++ destroy_events b 0 k
               ++ [EvDeallocate (CollectionOf.alloc (CollectionOf.d_ c)) b
                     (CollectionOf.length_ c)])
            (throw_after s)).
Proof.
  intros Hp Hb Hn Hk. unfold CollectionOf.dtor_body.
  rewrite Hp, Nat2N.id.
  erewrite bind_ret_step.
  2:{ apply (destroy_n_ok b _ k 0 s (Some <$> vs) Hb).
      intros j Hj. apply (live_slots vs 0 k); simpl; lia. }
  unfold CollectionOf.Deleter_call.
  erewrite deallocate_ok; simpl.
  - by rewrite delete_insert_eq, <- app_assoc.
  - apply lookup_insert_eq.
  - rewrite write_from_length, length_fmap. lia.
Qed.
End CollectionOfFacts.

Section CollectionOfClaims.
Context {T : Type} `{!Element T} {Args : Type} `{!Constructible Args T}.
Implicit Types (s : state T) (c : CollectionOf.t) (n : size_type) (args : Args).

(** After [construct(args...)] on a freshly allocated collection, as long as
    no element constructor throws: the length is what it was and the slots
    hold the values the loop's successive constructions yield. *)
Lemma CollectionOf_construct_spec n (al : Alloc) args s :
  n <= max_size al -> budget_ok (N.to_nat n) s ->
  exists c s1 s2,
    CollectionOf.ctor n al s = Ret c s1 /\
    CollectionOf.construct c args s1 = Ret c s2 /\
    CollectionOf.length c = n /\
    CollectionOf.elements s2 c =
      Some (CollectionOf.construct_values args (N.to_nat n)).
Proof.
  intros Hn Hk. eexists _, _, _.
  split; [by apply CollectionOf_ctor_ok|]. split.
  - apply (CollectionOf_construct_ok _ (next_block s) al
             (replicate (N.to_nat n) None)); simpl.
    + done.
    + apply lookup_insert_eq.
    + by rewrite length_replicate.
    + by rewrite length_replicate.
  - split; [done|]. apply contents_Some. exists (next_block s), al. simpl.
    rewrite lookup_insert_eq, !length_replicate, construct_values_length.
    split_and!; [done..|lia].
Qed.

(** With a pack that construction does not consume, every slot holds the
    value a direct construction from the pack yields. *)
Lemma CollectionOf_construct_unconsumed n (al : Alloc) args v s :
  n <= max_size al -> budget_ok (N.to_nat n) s ->
  T_construct args = (v, args) ->
  exists c s1 s2,
    CollectionOf.ctor n al s = Ret c s1 /\
    CollectionOf.construct c args s1 = Ret c s2 /\
    CollectionOf.length c = n /\
    CollectionOf.elements s2 c = Some (replicate (N.to_nat n) (T_construct args).1).
Proof.
  intros Hn Hk Hc.
  destruct (CollectionOf_construct_spec n al args s Hn Hk) as (c & s1 & s2 & ? & ? & ? & He).
  exists c, s1, s2. split_and!; [done..|].
  by rewrite He, (construct_values_unconsumed args v), Hc.
Qed.

(** C4: the destructor's loop runs up to [n] over [ptr], names the class
    does not declare, and not up to [length_] over [ptr_].  A collection of
    length [n] is allocated and [construct] is called on it once; then the
    destructor's statements run with [ptr] naming the storage and [n] naming
    a count [k] of at most the length.  They append to the log the
    destruction of slot 0, slot 1, ..., slot [k-1], in this order, and then
    one [deallocate] of the block: the run counts [n] constructions and [k]
    destructions, so every slot is destroyed only where the free name [n]
    happens to hold the length. *)
Theorem C4_destructor_loop_bound_is_a_free_name : forall n (k : nat) (al : Alloc) args s,
  n <= max_size al -> budget_ok (N.to_nat n) s -> (k <= N.to_nat n)%nat ->
  exists c s1 s2 s3 b,
    CollectionOf.ctor n al s = Ret c s1 /\
    CollectionOf.construct c args s1 = Ret c s2 /\
    CollectionOf.dtor_body (N.of_nat k) (CollectionOf.data c) c s2 = Ret tt s3 /\
    CollectionOf.data c = Ptr b 0 /\
    trace s3 = trace s2 ++ destroy_events b 0 k ++ [EvDeallocate al b n] /\
    (forall i, (i < k)%nat ->
       trace s3 !! (length (trace s2) + i)%nat = Some (EvDestroy b (N.of_nat i))) /\
    trace s3 !! (length (trace s2) + k)%nat = Some (EvDeallocate al b n) /\
    length (trace s3) = (length (trace s2) + k + 1)%nat /\
    count_events is_construct s2 = (count_events is_construct s + N.to_nat n)%nat /\
    count_events is_destroy s3 = (count_events is_destroy s + k)%nat /\
    count_events is_deallocate s3 = S (count_events is_deallocate s) /\
    heap s3 !! b = None.
Proof.
  intros n k al args s Hn Hk Hkn.
  set (b := next_block s).
  set (vs := CollectionOf.construct_values args (N.to_nat n)).
  assert (length vs = N.to_nat n) as Hvs by apply construct_values_length.
  set (c := CollectionOf.Mk n (Ptr b 0) (CollectionOf.MkDeleter al)).
  set (s1 := MkState (<[b := MkBlock al (replicate (N.to_nat n) None)]> (heap s))
               (N.succ b) (trace s ++ [EvAllocate al b n]) (throw_after s)).
  set (s2 := MkState (<[b := MkBlock al (Some <$> vs)]> (heap s1)) (next_block s1)
               (trace s1 ++ construct_events b 0 vs)
               (spend (N.to_nat n) (throw_after s1))).
  set (s3 := MkState (delete b (heap s2)) (next_block s2)
               (trace s2 ++ destroy_events b 0 k ++ [EvDeallocate al b n])
               (throw_after s2)).
  assert (CollectionOf.ctor n al s = Ret c s1) as H1
    by (by apply CollectionOf_ctor_ok).
  assert (CollectionOf.construct c args s1 = Ret c s2) as H2.
  { rewrite (CollectionOf_construct_ok c b al (replicate (N.to_nat n) None) args s1);
      rewrite ?length_replicate; try done.
    subst s1. simpl. apply lookup_insert_eq. }
  assert (CollectionOf.dtor_body (N.of_nat k) (CollectionOf.data c) c s2 = Ret tt s3)
    as H3.
  { apply (CollectionOf_dtor_body_ok c b vs k s2); rewrite ?Hvs; try done.
    - subst s2. simpl. apply lookup_insert_eq.
    - simpl. lia. }
  exists c, s1, s2, s3, b. split_and!; try done.
  - intros i Hi. subst s3. cbn [trace].
    rewrite lookup_app_r by lia.
    replace (length (trace s2) + i - length (trace s2))%nat with i by lia.
    rewrite lookup_app_l by (rewrite destroy_events_length; lia).
    by rewrite destroy_events_lookup by lia.
  - subst s3. cbn [trace]. rewrite lookup_app_r by lia.
    replace (length (trace s2) + k - length (trace s2))%nat with k by lia.
    rewrite lookup_app_r by (rewrite destroy_events_length; lia).
    rewrite destroy_events_length. by rewrite Nat.sub_diag.
  - subst s3. cbn [trace]. rewrite !length_app, destroy_events_length. simpl. lia.
  - rewrite (count_events_app is_construct s s2
               (EvAllocate al b n :: construct_events b 0 vs)).
    + simpl. destruct (construct_events_count b vs 0) as (-> & _).
      by rewrite construct_events_length, Hvs.
    + subst s2 s1. simpl. by rewrite <- app_assoc.
  - rewrite (count_events_app is_destroy s s3
               (EvAllocate al b n :: construct_events b 0 vs
                  ++ destroy_events b 0 k ++ [EvDeallocate al b n])).
    + simpl. rewrite !List.filter_app.
      destruct (construct_events_count b vs 0) as (_ & -> & _).
      destruct (destroy_events_count (T:=T) b k 0) as (_ & -> & _).
      simpl. by rewrite length_app, destroy_events_length, Nat.add_0_r.
    + subst s3 s2 s1. simpl. by rewrite <- !app_assoc.
  - rewrite (count_events_app is_deallocate s s3
               (EvAllocate al b n :: construct_events b 0 vs
                  ++ destroy_events b 0 k ++ [EvDeallocate al b n])).
    + simpl. rewrite !List.filter_app.
      destruct (construct_events_count b vs 0) as (_ & _ & ->).
      destruct (destroy_events_count (T:=T) b k 0) as (_ & _ & ->).
      simpl. lia.
    + subst s3 s2 s1. simpl. by rewrite <- !app_assoc.
  - subst s3. simpl. apply lookup_delete_eq.
Qed.
End CollectionOfClaims.

(** C4 at [CollectionOf<int> c(5)], [c.construct(42)] and a destructor whose
    [n] is 2: five constructions, two destructions. *)
Lemma C4_5_constructions_2_destructions :
  exists c s1 s2 s3 b,
    CollectionOf.ctor 5 Alloc_default empty_state = Ret c s1 /\
    CollectionOf.construct c 42%Z s1 = Ret c s2 /\
    CollectionOf.dtor_body (N.of_nat 2) (CollectionOf.data c) c s2 = Ret tt s3 /\
    CollectionOf.data c = Ptr b 0 /\
    trace s3 = trace s2 ++ destroy_events b 0 2 ++ [EvDeallocate Alloc_default b 5] /\
    (forall i, (i < 2)%nat ->
       trace s3 !! (length (trace s2) + i)%nat = Some (EvDestroy b (N.of_nat i))) /\
    trace s3 !! (length (trace s2) + 2)%nat = Some (EvDeallocate Alloc_default b 5) /\
    length (trace s3) = (length (trace s2) + 2 + 1)%nat /\
    count_events is_construct s2 = (count_events is_construct (@empty_state Z) + 5)%nat /\
    count_events is_destroy s3 = (count_events is_destroy (@empty_state Z) + 2)%nat /\
    count_events is_deallocate s3 = S (count_events is_deallocate (@empty_state Z)) /\
    heap s3 !! b = None.
Proof.
  apply (C4_destructor_loop_bound_is_a_free_name (T:=Z) (Args:=Z)
           5 2 Alloc_default 42%Z empty_state).
  - vm_compute. discriminate.
  - exact I.
  - simpl. lia.
Defined.

(** ** Equality, range checks and the length, for both containers *)

Section BothContainers.
Context {T : Type} `{!Element T} {Args : Type} `{!Constructible Args T}.
Implicit Types (s : state T) (a b : ArrayOf.t) (c d : CollectionOf.t)
  (n : size_type) (v : T) (args : Args).

Lemma prefix_eqb_true (vs ws : list T) :
  length vs = length ws ->
  prefix_eqb vs ws = true <->
  forall i x y, vs !! i = Some x -> ws !! i = Some y -> T_eqb x y = true.
Proof.
  revert ws. induction vs as [|x vs IH]; intros [|y ws] Hlen; simpl in *; try done.
  destruct (T_eqb x y) eqn:Hxy.
  - rewrite IH by lia. split.
    + intros Hall [|i] x' y'; simpl; [by intros [= <-] [= <-]|]. apply Hall.
    + intros Hall i x' y'. apply (Hall (S i)).
  - split; [done|]. intros Hall. rewrite <- Hxy. by apply (Hall 0%nat).
Qed.

(** On arrays whose left operand is not the longer one, [operator==] walks
    the left operand's length and answers for that prefix of the right. *)
Lemma ArrayOf_eq_prefix a b s (va vb : list T) :
  ArrayOf.elements s a = Some va ->
  ArrayOf.elements s b = Some vb ->
  (length va <= length vb)%nat ->
  ArrayOf.eq a b s = Ret (prefix_eqb va vb) s.
Proof.
  intros Ha Hb Hlen.
  apply contents_Some in Ha as (b1 & al1 & Hp1 & H1 & Hn1).
  apply contents_Some in Hb as (b2 & al2 & Hp2 & H2 & Hn2).
  unfold ArrayOf.eq, equal, ArrayOf.begin, ArrayOf.end_.
  rewrite Hp1, Hp2, distance_begin_end, Hn1.
  rewrite (in_bounds_block s b1 al1 _ _ H1), (in_bounds_block s b2 al2 _ _ H2).
  rewrite !bool_decide_true by (rewrite length_fmap; lia). simpl.
  rewrite Nat2N.id.
  by rewrite (equal_from_ok _ _ b1 b2 al1 al2 va vb s eq_refl eq_refl H1 H2 Hlen
                (length va) 0) by (simpl; lia).
Qed.

Lemma CollectionOf_eq_prefix c d s (vc vd : list T) :
  CollectionOf.elements s c = Some vc ->
  CollectionOf.elements s d = Some vd ->
  (length vc <= length vd)%nat ->
  CollectionOf.eq c d s = Ret (prefix_eqb vc vd) s.
Proof.
  intros Hc Hd Hlen.
  apply contents_Some in Hc as (b1 & al1 & Hp1 & H1 & Hn1).
  apply contents_Some in Hd as (b2 & al2 & Hp2 & H2 & Hn2).
  unfold CollectionOf.eq, equal, CollectionOf.begin, CollectionOf.end_.
  rewrite Hp1, Hp2, distance_begin_end, Hn1.
  rewrite (in_bounds_block s b1 al1 _ _ H1), (in_bounds_block s b2 al2 _ _ H2).
  rewrite !bool_decide_true by (rewrite length_fmap; lia). simpl.
  rewrite Nat2N.id.
  by rewrite (equal_from_ok _ _ b1 b2 al1 al2 vc vd s eq_refl eq_refl H1 H2 Hlen
                (length vc) 0) by (simpl; lia).
Qed.

(** Between containers of one length, [operator==] is element-wise
    equality. *)
Lemma eq_same_length a b c d s (va vb vc vd : list T) :
  ArrayOf.elements s a = Some va -> ArrayOf.elements s b = Some vb ->
  CollectionOf.elements s c = Some vc -> CollectionOf.elements s d = Some vd ->
  length va = length vb -> length vc = length vd ->
  exists r1 r2,
    ArrayOf.eq a b s = Ret r1 s /\ CollectionOf.eq c d s = Ret r2 s /\
    (r1 = true <->
       forall i x y, va !! i = Some x -> vb !! i = Some y -> T_eqb x y = true) /\
    (r2 = true <->
       forall i x y, vc !! i = Some x -> vd !! i = Some y -> T_eqb x y = true).
Proof.
  intros Ha Hb Hc Hd Hab Hcd. exists (prefix_eqb va vb), (prefix_eqb vc vd).
  split_and!.
  - apply ArrayOf_eq_prefix; [done..|lia].
  - apply CollectionOf_eq_prefix; [done..|lia].
  - by apply prefix_eqb_true.
  - by apply prefix_eqb_true.
Qed.

(** C8: [at(n)] throws [out_of_range] exactly when [n >= length]; whatever it
    throws is [out_of_range] and the store is as it was; below the length it
    returns the slot [operator[](n)] returns. *)
Theorem C8_at_checks_the_range : forall a c n s,
  ((ArrayOf.length a <= n <-> ArrayOf.at_ a n s = Throw out_of_range s) /\
   (n < ArrayOf.length a <-> ArrayOf.at_ a n s = Ret (ptr_add (ArrayOf.data a) n) s) /\
   (n < ArrayOf.length a -> ArrayOf.at_ a n s = ArrayOf.subscript a n s) /\
   (forall e s', ArrayOf.at_ a n s = Throw e s' -> e = out_of_range /\ s' = s)) /\
  ((CollectionOf.length c <= n <-> CollectionOf.at_ c n s = Throw out_of_range s) /\
   (n < CollectionOf.length c <->
      CollectionOf.at_ c n s = Ret (ptr_add (CollectionOf.data c) n) s) /\
   (n < CollectionOf.length c -> CollectionOf.at_ c n s = CollectionOf.subscript c n s) /\
   (forall e s', CollectionOf.at_ c n s = Throw e s' -> e = out_of_range /\ s' = s)).
Proof.
  intros a c n s.
  unfold ArrayOf.at_, ArrayOf.RangeCheck, ArrayOf.subscript, ArrayOf.length,
    ArrayOf.data, CollectionOf.at_, CollectionOf.RangeCheck, CollectionOf.subscript,
    CollectionOf.length, CollectionOf.data, bind, throw, ret.
  split.
  - destruct (N.leb_spec (ArrayOf.length_ a) n) as [Hle|Hlt].
    + split_and!; [done|split; [lia|done]|lia|by intros e s' [= <- <-]].
    + split_and!; [split; [lia|done]|done|done|done].
  - destruct (N.leb_spec (CollectionOf.length_ c) n) as [Hle|Hlt].
    + split_and!; [done|split; [lia|done]|lia|by intros e s' [= <- <-]].
    + split_and!; [split; [lia|done]|done|done|done].
Qed.

(** What a member function hands back on returning. *)
Lemma bind_Ret_inv {A B} (m : M T A) (k : A -> M T B) s y s' :
  bind m k s = Ret y s' -> exists x s1, m s = Ret x s1 /\ k x s1 = Ret y s'.
Proof. unfold bind. destruct (m s) as [x s1| |]; [eauto|done..]. Qed.

Lemma ArrayOf_ctor_length n v (al : Alloc) s a s' :
  ArrayOf.ctor n v al s = Ret a s' -> ArrayOf.length a = n.
Proof.
  unfold ArrayOf.ctor. intros (p & s1 & _ & H)%bind_Ret_inv.
  apply bind_Ret_inv in H as (u & s2 & _ & H). by injection H as <- _.
Qed.

Lemma ArrayOf_fill_this a v s a' s' :
  ArrayOf.fill a v s = Ret a' s' -> a' = a.
Proof.
  unfold ArrayOf.fill. intros (u & s1 & _ & H)%bind_Ret_inv. by injection H as <- _.
Qed.

Lemma ArrayOf_swap_this a b s r s' :
  ArrayOf.swap a b s = Ret r s' -> r = (a, b).
Proof.
  unfold ArrayOf.swap. intros (u & s1 & _ & H)%bind_Ret_inv. by injection H as <- _.
Qed.

Lemma CollectionOf_ctor_length n (al : Alloc) s c s' :
  CollectionOf.ctor n al s = Ret c s' -> CollectionOf.length c = n.
Proof.
  unfold CollectionOf.ctor. intros (p & s1 & _ & H)%bind_Ret_inv.
  by injection H as <- _.
Qed.

Lemma CollectionOf_construct_this c args s c' s' :
  CollectionOf.construct c args s = Ret c' s' -> c' = c.
Proof.
  unfold CollectionOf.construct. intros (u & s1 & _ & H)%bind_Ret_inv.
  by injection H as <- _.
Qed.

Lemma lengths_set_array (o : objects) (x : N) a a0 :
  lengths_as_given o -> arrays o !! x = Some a0 ->
  ArrayOf.length a = ArrayOf.length a0 ->
  lengths_as_given (set_array x a o).
Proof.
  intros [Ha Hc] Hx Hlen. split; [|done]. intros x' a'. simpl.
  destruct (decide (x' = x)) as [->|Hne].
  - rewrite lookup_insert_eq. intros [= <-]. rewrite Hlen. by apply Ha.
  - rewrite lookup_insert_ne by done. apply Ha.
Qed.

Lemma lengths_set_collection (o : objects) (x : N) c c0 :
  lengths_as_given o -> collections o !! x = Some c0 ->
  CollectionOf.length c = CollectionOf.length c0 ->
  lengths_as_given (set_collection x c o).
Proof.
  intros [Ha Hc] Hx Hlen. split; [done|]. intros x' c'. simpl.
  destruct (decide (x' = x)) as [->|Hne].
  - rewrite lookup_insert_eq. intros [= <-]. rewrite Hlen. by apply Hc.
  - rewrite lookup_insert_ne by done. apply Hc.
Qed.

Lemma lengths_declare_array (o : objects) (x : N) n a :
  lengths_as_given o -> ArrayOf.length a = n ->
  lengths_as_given (declare_array x n a o).
Proof.
  intros [Ha Hc] Hlen. split; [|done]. intros x' a'. simpl.
  destruct (decide (x' = x)) as [->|Hne].
  - rewrite !lookup_insert_eq. intros [= <-]. by rewrite Hlen.
  - rewrite !lookup_insert_ne by done. apply Ha.
Qed.

Lemma lengths_declare_collection (o : objects) (x : N) n c :
  lengths_as_given o -> CollectionOf.length c = n ->
  lengths_as_given (declare_collection x n c o).
Proof.
  intros [Ha Hc] Hlen. split; [done|]. intros x' c'. simpl.
  destruct (decide (x' = x)) as [->|Hne].
  - rewrite !lookup_insert_eq. intros [= <-]. by rewrite Hlen.
  - rewrite !lookup_insert_ne by done. apply Hc.
Qed.

(** A statement that is not a move-assignment keeps every container's
    length the one its constructor was given. *)
Lemma exec_keeps_lengths (c : stmt T Args) (o : objects) s o' s' :
  is_move c = false -> lengths_as_given o ->
  exec c o s = Ret o' s' -> lengths_as_given o'.
Proof.
  intros Hc Hinv.
  destruct c as [x n v al|x v|x y|x i|x i v|x|x y|x y|x n al|x args|x i|x i v|x|x y];
    simpl in *; [..|]; try discriminate Hc;
    unfold with_array, with_collection.
  - destruct (arrays o !! x) eqn:Hx; [done|].
    intros (a & s1 & Hctor & H)%bind_Ret_inv. injection H as <- _.
    apply lengths_declare_array; [done|]. by apply ArrayOf_ctor_length in Hctor.
  - destruct (arrays o !! x) as [a|] eqn:Hx; [|done].
    intros (a' & s1 & ->%ArrayOf_fill_this & H)%bind_Ret_inv. injection H as <- _.
    by apply (lengths_set_array o x a a).
  - destruct (arrays o !! x) as [a|] eqn:Hx; [|done].
    destruct (arrays o !! y) as [b|] eqn:Hy; [|done].
    intros (r & s1 & ->%ArrayOf_swap_this & H)%bind_Ret_inv. injection H as <- _.
    simpl. apply (lengths_set_array _ y b b); [|simpl|done].
    + by apply (lengths_set_array o x a a).
    + destruct (decide (y = x)) as [->|Hne].
      * rewrite lookup_insert_eq. congruence.
      * by rewrite lookup_insert_ne.
  - destruct (arrays o !! x) as [a|] eqn:Hx; [|done].
    intros (p & s1 & _ & H)%bind_Ret_inv.
    apply bind_Ret_inv in H as (u & s2 & _ & H). by injection H as <- _.
  - destruct (arrays o !! x) as [a|] eqn:Hx; [|done].
    intros (p & s1 & _ & H)%bind_Ret_inv.
    apply bind_Ret_inv in H as (u & s2 & _ & H). by injection H as <- _.
  - destruct (arrays o !! x) as [a|] eqn:Hx; [|done].
    intros (u & s1 & _ & H)%bind_Ret_inv. by injection H as <- _.
  - destruct (arrays o !! x) as [a|] eqn:Hx; [|done].
    destruct (arrays o !! y) as [b|] eqn:Hy; [|done].
    intros (u & s1 & _ & H)%bind_Ret_inv. by injection H as <- _.
  - destruct (collections o !! x) eqn:Hx; [done|].
    intros (c & s1 & Hctor & H)%bind_Ret_inv. injection H as <- _.
    apply lengths_declare_collection; [done|].
    by apply CollectionOf_ctor_length in Hctor.
  - destruct (collections o !! x) as [c|] eqn:Hx; [|done].
    intros (c' & s1 & ->%CollectionOf_construct_this & H)%bind_Ret_inv.
    injection H as <- _. by apply (lengths_set_collection o x c c).
  - destruct (collections o !! x) as [c|] eqn:Hx; [|done].
    intros (p & s1 & _ & H)%bind_Ret_inv.
    apply bind_Ret_inv in H as (u & s2 & _ & H). by injection H as <- _.
  - destruct (collections o !! x) as [c|] eqn:Hx; [|done].
    intros (p & s1 & _ & H)%bind_Ret_inv.
    apply bind_Ret_inv in H as (u & s2 & _ & H). by injection H as <- _.
  - destruct (collections o !! x) as [c|] eqn:Hx; [|done].
    intros (u & s1 & _ & H)%bind_Ret_inv. by injection H as <- _.
  - destruct (collections o !! x) as [c|] eqn:Hx; [|done].
    destruct (collections o !! y) as [d|] eqn:Hy; [|done].
    intros (u & s1 & _ & H)%bind_Ret_inv. by injection H as <- _.
Qed.

Lemma run_keeps_lengths (p : list (stmt T Args)) : forall (o : objects) s o' s',
  move_free p = true -> lengths_as_given o ->
  run p o s = Ret o' s' -> lengths_as_given o'.
Proof.
  induction p as [|c p IH]; intros o s o' s' Hp Hinv; simpl in *.
  - by intros [= <- _].
  - apply andb_prop in Hp as [Hc Hp]. apply negb_true_iff in Hc.
    intros (o1 & s1 & Hexec & Hrun)%bind_Ret_inv.
    apply (IH o1 s1 o' s' Hp); [|done].
    by apply (exec_keeps_lengths c o s o1 s1).
Qed.

End BothContainers.

(** ** Where the code parts from the specification *)

(** C1 at [ArrayOf<int>(3, 5)] and [ArrayOf<int>(4, 5)], and at the same two
    collections built with [construct(5)]: the lengths differ, yet
    [operator==] with the shorter container on the left returns [true]; with
    the longer one on the left it reads past the end of the shorter one's
    storage. *)
Theorem C1_eq_holds_between_lengths_3_and_4 :
  (exists a b s,
     (let* a := ArrayOf.ctor 3 5%Z Alloc_default in
      let* b := ArrayOf.ctor 4 5%Z Alloc_default in
      ret (a, b)) empty_state = Ret (a, b) s /\
     ArrayOf.length a = 3 /\ ArrayOf.length b = 4 /\
     ArrayOf.elements s a = Some [5; 5; 5]%Z /\
     ArrayOf.elements s b = Some [5; 5; 5; 5]%Z /\
     ArrayOf.eq a b s = Ret true s /\
     ArrayOf.ne a b s = Ret false s /\
     ArrayOf.eq b a s = Undef) /\
  (exists c d s,
     (let* c := CollectionOf.ctor 3 Alloc_default in
      let* c := CollectionOf.construct c 5%Z in
      let* d := CollectionOf.ctor 4 Alloc_default in
      let* d := CollectionOf.construct d 5%Z in
      ret (c, d)) empty_state = Ret (c, d) s /\
     CollectionOf.length c = 3 /\ CollectionOf.length d = 4 /\
     CollectionOf.eq c d s = Ret true s /\
     CollectionOf.ne c d s = Ret false s /\
     CollectionOf.eq d c s = Undef).
Proof.
  split.
  - eexists _, _, _. split; [vm_compute; reflexivity|]. by vm_compute.
  - eexists _, _, _. split; [vm_compute; reflexivity|]. by vm_compute.
Qed.

(** C2 at an array of two elements, [ArrayOf<T>(2, v)], when the second
    copy of the fill value throws (the value is written 7 here): the
    exception leaves the constructor after the one constructed slot has
    been destroyed, but the block that [allocate(2)] returned is still in
    the heap, no [deallocate] is in the log, and no array object exists to
    release it later. *)
Theorem C2_failed_construction_keeps_the_block :
  exists s',
    ArrayOf.ctor 2 7%Z Alloc_default (MkState ∅ 0 [] (Some 1%nat))
      = Throw element_failure s' /\
    trace s' = [EvAllocate Alloc_default 0 2; EvConstruct 0 0 7%Z; EvDestroy 0 0] /\
    heap s' !! 0 = Some (MkBlock Alloc_default [None; None]) /\
    count_events is_deallocate s' = 0%nat.
Proof. eexists. split; [vm_compute; reflexivity|]. by vm_compute. Qed.

(** C3 at [ArrayOf<int>(3, alloc)]: the constructor delegates with the
    member [length_], not yet initialised, in place of the parameter; when
    that storage reads as 0 the array has length 0 and no element, and when
    it reads as 7 the array has seven. *)
Theorem C3_allocator_overload_drops_the_length :
  (exists a s,
     ArrayOf.ctor_alloc (T:=Z) 0 3 Alloc_default empty_state = Ret a s /\
     ArrayOf.length a = 0 /\ ArrayOf.elements s a = Some []) /\
  (exists a s,
     ArrayOf.ctor_alloc (T:=Z) 7 3 Alloc_default empty_state = Ret a s /\
     ArrayOf.length a = 7 /\ ArrayOf.elements s a = Some (replicate 7 0%Z)).
Proof.
  split; (eexists _, _; split; [vm_compute; reflexivity|]; by vm_compute).
Qed.

(** C5 at [CollectionOf<std::vector<int>>(2)] and
    [construct(std::vector<int>{1, 2})]: the pack is forwarded as an rvalue
    in both iterations, so slot 0 is move-constructed from the argument and
    slot 1 from what the move left of it; the slots hold [{1, 2}] and [{}],
    where a direct construction from the argument yields [{1, 2}]. *)
Theorem C5_construct_forwards_a_consumed_pack :
  exists c s1 s2,
    CollectionOf.ctor (T:=list Z) 2 Alloc_default empty_state = Ret c s1 /\
    CollectionOf.construct c (Rvalue [1; 2]%Z) s1 = Ret c s2 /\
    CollectionOf.length c = 2 /\
    CollectionOf.elements s2 c = Some [[1; 2]%Z; []] /\
    (T_construct (Rvalue [1; 2]%Z)).1 = [1; 2]%Z.
Proof.
  eexists _, _, _. split; [vm_compute; reflexivity|].
  split; [vm_compute; reflexivity|]. by vm_compute.
Qed.

(** C6 at two [ArrayOf<int, A>] of lengths 3 and 4 whose allocators are
    unequal, [a = std::move(b)]: [a] takes over [b]'s block, length,
    elements and allocator and can be destroyed; [b] is left with [a]'s
    former block and length but keeps its own allocator, which did not
    allocate that block, so the destructor of the moved-from [b] hands the
    block to the wrong allocator. *)
Theorem C6_move_assign_keeps_the_source_allocator :
  exists a b s,
    (let* a := ArrayOf.ctor 3 0%Z arena_1 in
     let* b := ArrayOf.ctor 4 0%Z arena_2 in
     ret (a, b)) empty_state = Ret (a, b) s /\
    ArrayOf.data (ArrayOf.move_assign a b).1 = ArrayOf.data b /\
    ArrayOf.length (ArrayOf.move_assign a b).1 = 4 /\
    ArrayOf.elements s (ArrayOf.move_assign a b).1 = Some [0; 0; 0; 0]%Z /\
    ArrayOf.alloc (ArrayOf.d_ (ArrayOf.move_assign a b).1) = arena_2 /\
    ArrayOf.data (ArrayOf.move_assign a b).2 = ArrayOf.data a /\
    ArrayOf.length (ArrayOf.move_assign a b).2 = 3 /\
    ArrayOf.alloc (ArrayOf.d_ (ArrayOf.move_assign a b).2) = arena_2 /\
    ArrayOf.data a = Ptr 0 0 /\
    blk_alloc <$> heap s !! 0 = Some arena_1 /\
    (exists s', ArrayOf.dtor (ArrayOf.move_assign a b).1 s = Ret tt s') /\
    ArrayOf.dtor (ArrayOf.move_assign a b).2 s = Undef.
Proof.
  eexists _, _, _. split; [vm_compute; reflexivity|].
  split_and!; try (by vm_compute). eexists. vm_compute. reflexivity.
Qed.



(** ** More on the loops: traversals, unequal lengths, failures *)

Section MoreLoopFacts.
Context {T : Type} `{!Element T}.
Implicit Types (s : state T) (al : Alloc) (slots : list (option T)).

Lemma read_from_ok (b : N) al (vs : list T) s :
  heap s !! b = Some (MkBlock al (Some <$> vs)) ->
  forall k cur, (N.to_nat cur + k <= length vs)%nat ->
  read_from (Ptr b 0) cur k s = Ret (take k (drop (N.to_nat cur) vs)) s.
Proof.
  intros Hb. induction k as [|k IH]; intros cur Hk; simpl; [done|].
  destruct (lookup_lt_is_Some_2 vs (N.to_nat cur)) as [v Hv]; [lia|].
  rewrite (bind_ret_step _ _ s v s).
  2:{ apply (load_ok s b al (Some <$> vs)); [done|].
      by rewrite N.add_0_l, list_lookup_fmap, Hv. }
  rewrite (bind_ret_step _ _ s _ s (IH (cur + 1) ltac:(lia))).
  unfold ret. rewrite (drop_S vs v _ Hv). simpl.
  by replace (N.to_nat (cur + 1)) with (S (N.to_nat cur)) by lia.
Qed.

Lemma read_reverse_from_ok (b : N) al (vs : list T) s :
  heap s !! b = Some (MkBlock al (Some <$> vs)) ->
  forall k (m : size_type), (k <= N.to_nat m <= length vs)%nat ->
  read_reverse_from (MkReverse (Ptr b m)) k s
  = Ret (take k (reverse (take (N.to_nat m) vs))) s.
Proof.
  intros Hb. induction k as [|k IH]; intros m Hk; simpl; [done|].
  destruct (lookup_lt_is_Some_2 vs (N.to_nat (m - 1))) as [v Hv]; [lia|].
  unfold reverse_deref, reverse_next. simpl.
  rewrite decide_True by lia.
  rewrite (bind_ret_step _ _ s v s).
  2:{ apply (load_ok s b al (Some <$> vs)); [done|].
      by rewrite list_lookup_fmap, Hv. }
  rewrite (bind_ret_step _ _ s (MkReverse (Ptr b (m - 1))) s) by done.
  rewrite (bind_ret_step _ _ s _ s (IH (m - 1) ltac:(lia))).
  unfold ret. replace (N.to_nat m) with (S (N.to_nat (m - 1))) by lia.
  by rewrite (take_S_r vs _ v Hv), reverse_snoc.
Qed.

Lemma prefix_eqb_true_le (vs ws : list T) :
  (length vs <= length ws)%nat ->
  prefix_eqb vs ws = true <->
  forall i x y, vs !! i = Some x -> ws !! i = Some y -> T_eqb x y = true.
Proof.
  revert ws. induction vs as [|x vs IH]; intros [|y ws] Hlen; simpl in *;
    try done; try lia.
  destruct (T_eqb x y) eqn:Hxy.
  - rewrite IH by lia. split.
    + intros Hall [|i] x' y'; simpl; [by intros [= <-] [= <-]|]. apply Hall.
    + intros Hall i x' y'. apply (Hall (S i)).
  - split; [done|]. intros Hall. rewrite <- Hxy. by apply (Hall 0%nat).
Qed.

Lemma prefix_eqb_refl (vs : list T) :
  (forall v, v ∈ vs -> T_eqb v v = true) -> prefix_eqb vs vs = true.
Proof.
  induction vs as [|v vs IH]; intros Hrefl; simpl; [done|].
  rewrite Hrefl by apply list_elem_of_here. apply IH.
  intros w Hw. apply Hrefl. by apply list_elem_of_further.
Qed.

Lemma swap_ranges_from_undef (b1 b2 : N) al1 al2 :
  b1 <> b2 -> forall k cur s (sa sb : list (option T)),
  heap s !! b1 = Some (MkBlock al1 sa) ->
  heap s !! b2 = Some (MkBlock al2 sb) ->
  (forall j, (N.to_nat cur <= j < N.to_nat cur + k)%nat ->
             exists v, sa !! j = Some (Some v)) ->
  (forall j, (N.to_nat cur <= j < length sb)%nat ->
             exists v, sb !! j = Some (Some v)) ->
  (N.to_nat cur <= length sb < N.to_nat cur + k)%nat ->
  swap_ranges_from (Ptr b1 0) (Ptr b2 0) cur k s = Undef.
Proof.
  intros Hne. induction k as [|k IH]; intros cur s sa sb H1 H2 La Lb Hlen; [lia|].
  simpl. destruct (La (N.to_nat cur)) as [x Hx]; [lia|].
  rewrite (bind_ret_step _ _ s x s)
    by (apply (load_ok s b1 al1 sa); [done|by rewrite N.add_0_l]).
  destruct (decide (N.to_nat cur = length sb)) as [Heq|Hlt].
  - unfold bind, load. simpl.
    rewrite (slot_of_block _ _ _ _ _ H2), N.add_0_l.
    by rewrite (proj2 (lookup_ge_None sb (N.to_nat cur))) by lia.
  - destruct (Lb (N.to_nat cur)) as [y Hy]; [lia|].
    rewrite (bind_ret_step _ _ s y s)
      by (apply (load_ok s b2 al2 sb); [done|by rewrite N.add_0_l]).
    simpl.
    rewrite (bind_ret_step _ _ s tt _ (store_ok s b1 al1 sa cur x y H1 Hx)).
    set (s1 := set_heap _ s).
    assert (heap s1 !! b2 = Some (MkBlock al2 sb)) as H2'
      by (subst s1; simpl; by rewrite lookup_insert_ne).
    rewrite (bind_ret_step _ _ s1 tt _ (store_ok s1 b2 al2 sb cur y x H2' Hy)).
    apply (IH _ _ (<[N.to_nat cur := Some y]> sa) (<[N.to_nat cur := Some x]> sb)).
    + simpl. rewrite lookup_insert_ne by done. subst s1. simpl. apply lookup_insert_eq.
    + simpl. apply lookup_insert_eq.
    + intros j Hj. rewrite list_lookup_insert_ne by lia. apply La. lia.
    + intros j Hj. rewrite length_insert in Hj.
      rewrite list_lookup_insert_ne by lia. apply Lb. lia.
    + rewrite length_insert. lia.
Qed.

Lemma construct_from_throws {Args} `{!Constructible Args T}
    (this : CollectionOf.t) (b : N) al :
  CollectionOf.ptr_ this = Ptr b 0 -> forall k j (args : Args) cur s slots,
  heap s !! b = Some (MkBlock al slots) ->
  (N.to_nat cur + k <= length slots)%nat ->
  throw_after s = Some j -> (j < k)%nat ->
  CollectionOf.construct_from this args cur k s =
  Throw element_failure
    (MkState
       (<[b := MkBlock al
                 (<[(N.to_nat cur + j)%nat := None]>
                    (write_from (N.to_nat cur)
                       (Some <$> CollectionOf.construct_values args j) slots))]>
          (heap s))
       (next_block s)
       (trace s ++ construct_events b cur (CollectionOf.construct_values args j))
       None).
Proof.
  intros Hp. induction k as [|k IH]; intros j args cur s slots Hb Hlen Hth Hj; [lia|].
  simpl. destruct (T_construct args) as [v args'] eqn:Hc. rewrite Hp.
  change (ptr_add (Ptr b 0) cur) with (Ptr b cur).
  destruct j as [|j].
  - erewrite bind_throw_step.
    2:{ by apply (construct_at_throws s b al slots); [|lia|]. }
    simpl. by rewrite Nat.add_0_r, app_nil_r.
  - rewrite (bind_ret_step _ _ s tt
      (MkState (<[b := MkBlock al (<[N.to_nat cur := Some v]> slots)]> (heap s))
               (next_block s) (trace s ++ [EvConstruct b cur v]) (Some j))).
    2:{ rewrite (construct_at_ok s b al slots) by
          (done || lia || (unfold budget_ok; rewrite Hth; lia)).
        rewrite Hth. simpl. do 3 f_equal. lia. }
    rewrite (IH j _ _ _ (<[N.to_nat cur := Some v]> slots)); simpl.
    + rewrite Hc, insert_insert_eq, <- app_assoc. simpl.
      replace (N.to_nat (cur + 1)) with (S (N.to_nat cur)) by lia.
      by replace (N.to_nat cur + S j)%nat with (S (N.to_nat cur) + j)%nat by lia.
    + apply lookup_insert_eq.
    + rewrite length_insert. lia.
    + done.
    + lia.
Qed.
End MoreLoopFacts.

(** ** ArrayOf: construction, destruction and moves, end to end *)

Section ArrayOfLifecycle.
Context {T : Type} `{!Element T}.
Implicit Types (s : state T) (v : T) (n : size_type) (al : Alloc).

Lemma budget_ok_spend (j k : nat) s (h : gmap N (block T)) nb tr :
  budget_ok (j + k) s ->
  budget_ok k (MkState h nb tr (spend j (throw_after s))).
Proof. unfold budget_ok. simpl. destruct (throw_after s); simpl; lia. Qed.

(** X1: [ArrayOf(n, v, alloc)], when the allocation and the [n] copies
    succeed, returns an array of length [n] whose storage is a fresh block
    and whose every slot holds [v]; the log gains the allocation followed by
    the constructions of slots 0, 1, ..., [n-1], and no other block of the
    heap changes.  [ArrayOf(n)] and [ArrayOf(n, v)] are that constructor at
    the default value and allocators. *)
Theorem ArrayOf_construction_fills_every_slot : forall n v al s,
  n <= max_size al -> budget_ok (N.to_nat n) s ->
  (exists a s',
     ArrayOf.ctor n v al s = Ret a s' /\
     ArrayOf.length a = n /\
     ArrayOf.data a = Ptr (next_block s) 0 /\
     ArrayOf.elements s' a = Some (replicate (N.to_nat n) v) /\
     trace s' = trace s ++ EvAllocate al (next_block s) n
                  :: construct_events (next_block s) 0 (replicate (N.to_nat n) v) /\
     (forall i, (i < N.to_nat n)%nat ->
        trace s' !! (length (trace s) + 1 + i)%nat
        = Some (EvConstruct (next_block s) (N.of_nat i) v)) /\
     (forall b, b <> next_block s -> heap s' !! b = heap s !! b)) /\
  ArrayOf.ctor_n n s = ArrayOf.ctor n T_default Alloc_default s /\
  ArrayOf.ctor_value n v s = ArrayOf.ctor n v std_allocator s.
Proof.
  intros n v al s Hn Hk. split; [|done].
  eexists _, _. split; [by apply ArrayOf_ctor_ok|]. simpl.
  split_and!; try done.
  - apply contents_Some. exists (next_block s), al. simpl.
    rewrite lookup_insert_eq, fmap_replicate, length_replicate.
    split_and!; [done..|lia].
  - intros i Hi. rewrite lookup_app_r by lia.
    replace (length (trace s) + 1 + i - length (trace s))%nat with (S i) by lia.
    simpl. rewrite (construct_events_lookup _ _ 0 i v).
    + by rewrite N.add_0_l.
    + by apply lookup_replicate_2.
  - intros b Hb. by rewrite lookup_insert_ne.
Qed.

(** X2: when the allocator cannot satisfy the request, the constructors of
    both containers throw what [allocate] throws and leave the store as it
    was: nothing is allocated, constructed or logged. *)
Theorem ctor_allocation_failure : forall n v al s,
  max_size al < n ->
  ArrayOf.ctor n v al s = Throw bad_alloc s /\
  CollectionOf.ctor n al s = Throw bad_alloc s.
Proof.
  intros n v al s Hn.
  assert (allocate (T:=T) al n s = Throw bad_alloc s) as Ha.
  { unfold allocate. by rewrite (proj2 (N.leb_gt _ _) Hn). }
  split.
  - unfold ArrayOf.ctor. simpl. by rewrite (bind_throw_step _ _ s _ _ Ha).
  - unfold CollectionOf.ctor. simpl. by rewrite (bind_throw_step _ _ s _ _ Ha).
Qed.

(** X3: constructing an array and then destroying it gives the heap back as
    it was.  The destructor adds one event to the log, the release of the
    array's block through the array's allocator with the array's length; it
    runs no element destructor. *)
Theorem ArrayOf_ctor_dtor_round_trip : forall n v al s,
  n <= max_size al -> budget_ok (N.to_nat n) s ->
  heap s !! next_block s = None ->
  exists a s1 s2,
    ArrayOf.ctor n v al s = Ret a s1 /\
    ArrayOf.dtor a s1 = Ret tt s2 /\
    heap s2 = heap s /\
    trace s2 = trace s1 ++ [EvDeallocate al (next_block s) n] /\
    count_events is_construct s2 = (count_events is_construct s + N.to_nat n)%nat /\
    count_events is_destroy s2 = count_events is_destroy s /\
    count_events is_deallocate s2 = S (count_events is_deallocate s).
Proof.
  intros n v al s Hn Hk Hfresh.
  eexists _, _, _. split; [by apply ArrayOf_ctor_ok|]. split.
  - apply (ArrayOf_dtor_ok _ (next_block s) (replicate (N.to_nat n) (Some v)));
      simpl; [done|apply lookup_insert_eq|by rewrite length_replicate].
  - simpl. split_and!.
    + by rewrite delete_insert_eq, delete_id.
    + done.
    + rewrite (count_events_app is_construct s _
                 (EvAllocate al (next_block s) n
                    :: construct_events (next_block s) 0 (replicate (N.to_nat n) v)
                    ++ [EvDeallocate al (next_block s) n]))
        by (simpl; by rewrite <- app_assoc).
      simpl. rewrite List.filter_app.
      destruct (construct_events_count (next_block s) (replicate (N.to_nat n) v) 0)
        as (-> & _).
      simpl. by rewrite app_nil_r, construct_events_length, length_replicate.
    + rewrite (count_events_app is_destroy s _
                 (EvAllocate al (next_block s) n
                    :: construct_events (next_block s) 0 (replicate (N.to_nat n) v)
                    ++ [EvDeallocate al (next_block s) n]))
        by (simpl; by rewrite <- app_assoc).
      simpl. rewrite List.filter_app.
      destruct (construct_events_count (next_block s) (replicate (N.to_nat n) v) 0)
        as (_ & -> & _).
      simpl. lia.
    + rewrite (count_events_app is_deallocate s _
                 (EvAllocate al (next_block s) n
                    :: construct_events (next_block s) 0 (replicate (N.to_nat n) v)
                    ++ [EvDeallocate al (next_block s) n]))
        by (simpl; by rewrite <- app_assoc).
      simpl. rewrite List.filter_app.
      destruct (construct_events_count (next_block s) (replicate (N.to_nat n) v) 0)
        as (_ & _ & ->).
      simpl. lia.
Qed.
End ArrayOfLifecycle.

Lemma ArrayOf_construction_3_5 :
  (3 <= max_size Alloc_default /\ budget_ok (N.to_nat 3) (@empty_state Z)) /\
  (exists a s',
     ArrayOf.ctor 3 5%Z Alloc_default empty_state = Ret a s' /\
     ArrayOf.length a = 3 /\
     ArrayOf.data a = Ptr (next_block (@empty_state Z)) 0 /\
     ArrayOf.elements s' a = Some (replicate (N.to_nat 3) 5%Z) /\
     trace s' = trace empty_state ++ EvAllocate Alloc_default (next_block (@empty_state Z)) 3
                  :: construct_events (next_block (@empty_state Z)) 0
                       (replicate (N.to_nat 3) 5%Z) /\
     (forall i, (i < N.to_nat 3)%nat ->
        trace s' !! (length (trace (@empty_state Z)) + 1 + i)%nat
        = Some (EvConstruct (next_block (@empty_state Z)) (N.of_nat i) 5%Z)) /\
     (forall b, b <> next_block (@empty_state Z) ->
        heap s' !! b = heap (@empty_state Z) !! b)) /\
  ArrayOf.ctor_n 3 (@empty_state Z) = ArrayOf.ctor 3 T_default Alloc_default empty_state /\
  ArrayOf.ctor_value 3 5%Z empty_state = ArrayOf.ctor 3 5%Z std_allocator empty_state.
Proof.
  assert (3 <= max_size Alloc_default) as H1 by (vm_compute; discriminate).
  assert (budget_ok (N.to_nat 3) (@empty_state Z)) as H2 by exact I.
  split; [done|].
  exact (ArrayOf_construction_fills_every_slot 3 5%Z Alloc_default empty_state H1 H2).
Defined.

Lemma ctor_allocation_failure_2000 :
  max_size arena_1 < 2000 /\
  ArrayOf.ctor 2000 5%Z arena_1 empty_state = Throw bad_alloc empty_state /\
  CollectionOf.ctor 2000 arena_1 (@empty_state Z) = Throw bad_alloc empty_state.
Proof.
  assert (max_size arena_1 < 2000) as H1 by reflexivity.
  split; [done|]. exact (ctor_allocation_failure 2000 5%Z arena_1 empty_state H1).
Defined.

Lemma ArrayOf_ctor_dtor_round_trip_3_5 :
  exists a s1 s2,
    ArrayOf.ctor 3 5%Z Alloc_default empty_state = Ret a s1 /\
    ArrayOf.dtor a s1 = Ret tt s2 /\
    heap s2 = heap (@empty_state Z) /\
    trace s2 = trace s1 ++ [EvDeallocate Alloc_default (next_block (@empty_state Z)) 3] /\
    count_events is_construct s2
      = (count_events is_construct (@empty_state Z) + N.to_nat 3)%nat /\
    count_events is_destroy s2 = count_events is_destroy (@empty_state Z) /\
    count_events is_deallocate s2 = S (count_events is_deallocate (@empty_state Z)).
Proof.
  apply (ArrayOf_ctor_dtor_round_trip 3 5%Z Alloc_default empty_state).
  - vm_compute. discriminate.
  - exact I.
  - reflexivity.
Defined.

Section ArrayOfMoves.
Context {T : Type} `{!Element T}.
Implicit Types (s : state T) (v : T) (n : size_type) (al : Alloc).

(** X5: two arrays with one allocator, [a = std::move(b)], then both are
    destroyed.  After the assignment [a] holds what [b] held and [b] holds
    what [a] held; the two destructors release the two blocks, each once and
    each with the length it was allocated with, and neither block is left
    in the heap. *)
Theorem ArrayOf_move_assign_then_destroy_both : forall n m v w al s,
  n <= max_size al -> m <= max_size al ->
  budget_ok (N.to_nat n + N.to_nat m) s ->
  exists a b s1 s2 s3 s4,
    ArrayOf.ctor n v al s = Ret a s1 /\
    ArrayOf.ctor m w al s1 = Ret b s2 /\
    ArrayOf.elements s2 (ArrayOf.move_assign a b).1 = Some (replicate (N.to_nat m) w) /\
    ArrayOf.elements s2 (ArrayOf.move_assign a b).2 = Some (replicate (N.to_nat n) v) /\
    ArrayOf.dtor (ArrayOf.move_assign a b).1 s2 = Ret tt s3 /\
    ArrayOf.dtor (ArrayOf.move_assign a b).2 s3 = Ret tt s4 /\
    trace s4 = trace s2 ++ [EvDeallocate al (ArrayOf_block b) m;
                            EvDeallocate al (ArrayOf_block a) n] /\
    ArrayOf_block a <> ArrayOf_block b /\
    heap s4 !! ArrayOf_block a = None /\ heap s4 !! ArrayOf_block b = None.
Proof.
  intros n m v w al s Hn Hm Hk.
  set (ba := next_block s). set (bb := N.succ ba).
  assert (ba <> bb) as Hne by (subst bb; lia).
  set (s1 := MkState (<[ba := MkBlock al (replicate (N.to_nat n) (Some v))]> (heap s))
               bb (trace s ++ EvAllocate al ba n
                     :: construct_events ba 0 (replicate (N.to_nat n) v))
               (spend (N.to_nat n) (throw_after s))).
  set (s2 := MkState (<[bb := MkBlock al (replicate (N.to_nat m) (Some w))]> (heap s1))
               (N.succ bb) (trace s1 ++ EvAllocate al bb m
                     :: construct_events bb 0 (replicate (N.to_nat m) w))
               (spend (N.to_nat m) (throw_after s1))).
  assert (ArrayOf.ctor n v al s = Ret (ArrayOf.Mk n (Ptr ba 0) (ArrayOf.MkDeleter al)) s1)
    as H1.
  { apply ArrayOf_ctor_ok; [done|].
    apply (budget_ok_le (N.to_nat n) (N.to_nat n + N.to_nat m)); [lia|done]. }
  assert (ArrayOf.ctor m w al s1 = Ret (ArrayOf.Mk m (Ptr bb 0) (ArrayOf.MkDeleter al)) s2)
    as H2.
  { apply (ArrayOf_ctor_ok m w al s1 Hm). subst s1. by apply budget_ok_spend. }
  set (s3 := MkState (delete bb (heap s2)) (next_block s2)
               (trace s2 ++ [EvDeallocate al bb m]) (throw_after s2)).
  set (s4 := MkState (delete ba (heap s3)) (next_block s3)
               (trace s3 ++ [EvDeallocate al ba n]) (throw_after s3)).
  exists (ArrayOf.Mk n (Ptr ba 0) (ArrayOf.MkDeleter al)),
         (ArrayOf.Mk m (Ptr bb 0) (ArrayOf.MkDeleter al)), s1, s2, s3, s4.
  split; [exact H1|]. split; [exact H2|]. simpl.
  split_and!.
  - apply contents_Some. exists bb, al. simpl.
    rewrite lookup_insert_eq, fmap_replicate, length_replicate.
    split_and!; [done..|lia].
  - apply contents_Some. exists ba, al. simpl.
    rewrite lookup_insert_ne, lookup_insert_eq, fmap_replicate, length_replicate by done.
    split_and!; [done..|lia].
  - apply (ArrayOf_dtor_ok (ArrayOf.Mk m (Ptr bb 0) (ArrayOf.MkDeleter al)) bb
             (replicate (N.to_nat m) (Some w)) s2);
      simpl; [done|apply lookup_insert_eq|by rewrite length_replicate].
  - apply (ArrayOf_dtor_ok (ArrayOf.Mk n (Ptr ba 0) (ArrayOf.MkDeleter al)) ba
             (replicate (N.to_nat n) (Some v)) s3); simpl.
    + done.
    + rewrite lookup_delete_ne, lookup_insert_ne by done. apply lookup_insert_eq.
    + by rewrite length_replicate.
  - simpl. by rewrite <- app_assoc.
  - done.
  - simpl. apply lookup_delete_eq.
  - simpl. rewrite lookup_delete_ne by done. apply lookup_delete_eq.
Qed.
End ArrayOfMoves.

(** ** ArrayOf: fill and equality *)

Section ArrayOfFillEq.
Context {T : Type} `{!Element T}.
Implicit Types (s : state T) (a b : ArrayOf.t) (v : T) (al : Alloc).

Lemma ArrayOf_owns a s (vs : list T) :
  ArrayOf.elements s a = Some vs ->
  exists al, ArrayOf.ptr_ a = Ptr (ArrayOf_block a) 0 /\
    heap s !! ArrayOf_block a = Some (MkBlock al (Some <$> vs)) /\
    ArrayOf.length_ a = N.of_nat (length vs).
Proof.
  intros Ha. apply contents_Some in Ha as (b & al & Hp & Hb & Hn).
  exists al. unfold ArrayOf_block, ArrayOf.data. by rewrite Hp.
Qed.

Lemma ArrayOf_fill_ok a v s (blk : N) al (vs : list T) :
  ArrayOf.ptr_ a = Ptr blk 0 ->
  heap s !! blk = Some (MkBlock al (Some <$> vs)) ->
  ArrayOf.length_ a = N.of_nat (length vs) ->
  budget_ok (length vs) s ->
  ArrayOf.fill a v s =
  Ret a (MkState (<[blk := MkBlock al (replicate (length vs) (Some v))]> (heap s))
                 (next_block s)
                 (trace s ++ construct_events blk 0 (replicate (length vs) v))
                 (spend (length vs) (throw_after s))).
Proof.
  intros Hp Hb Hn Hk. unfold ArrayOf.fill, uninitialized_fill_n.
  rewrite Hp, Hn, Nat2N.id.
  erewrite bind_ret_step.
  2:{ apply (uninitialized_fill_from_ok v blk al (length vs) 0 s (Some <$> vs));
        [done|rewrite length_fmap; simpl; lia|done]. }
  unfold ret. simpl.
  by rewrite write_from_all by (by rewrite length_replicate, length_fmap).
Qed.

Lemma all_live_no_raw (slots : list (option T)) (vs : list T) i :
  slots !! i = Some None -> all_live slots = Some vs -> False.
Proof.
  intros Hi Hl. apply all_live_Some in Hl. subst slots.
  rewrite list_lookup_fmap in Hi. by destruct (vs !! i).
Qed.

(** X6: [fill(v)] on an array of live elements, when no copy throws, leaves
    the array with [v] in every slot, at the same storage and with the same
    length.  It builds the copies over the old elements: the log gains one
    construction per slot, in index order, and no destruction; no block is
    allocated or released and no other block changes. *)
Theorem ArrayOf_fill_overwrites_every_slot : forall a v s (vs : list T),
  ArrayOf.elements s a = Some vs -> budget_ok (length vs) s ->
  exists s',
    ArrayOf.fill a v s = Ret a s' /\
    ArrayOf.elements s' a = Some (replicate (length vs) v) /\
    trace s' = trace s ++ construct_events (ArrayOf_block a) 0 (replicate (length vs) v) /\
    count_events is_construct s' = (count_events is_construct s + length vs)%nat /\
    count_events is_destroy s' = count_events is_destroy s /\
    count_events is_deallocate s' = count_events is_deallocate s /\
    next_block s' = next_block s /\
    (forall blk, blk <> ArrayOf_block a -> heap s' !! blk = heap s !! blk).
Proof.
  intros a v s vs Ha Hk. destruct (ArrayOf_owns a s vs Ha) as (al & Hp & Hb & Hn).
  eexists. split; [by apply (ArrayOf_fill_ok a v s (ArrayOf_block a) al vs)|]. simpl.
  destruct (construct_events_count (ArrayOf_block a) (replicate (length vs) v) 0)
    as (Hc1 & Hc2 & Hc3).
  split_and!.
  - unfold ArrayOf.elements. rewrite Hp, Hn. apply contents_Some.
    exists (ArrayOf_block a), al. simpl.
    rewrite lookup_insert_eq, fmap_replicate, length_replicate. done.
  - done.
  - erewrite (count_events_app is_construct s); [|simpl; reflexivity].
    by rewrite Hc1, construct_events_length, length_replicate.
  - erewrite (count_events_app is_destroy s); [|simpl; reflexivity].
    by rewrite Hc2, Nat.add_0_r.
  - erewrite (count_events_app is_deallocate s); [|simpl; reflexivity].
    by rewrite Hc3, Nat.add_0_r.
  - done.
  - intros blk Hne. by rewrite lookup_insert_ne.
Qed.

(** X7: when the copy for slot [j] throws during [fill(v)], the exception
    leaves [fill] with the [j] copies already made destroyed again and with
    slot [j], whose storage the failed copy had taken over, holding no
    object either: reading any of the slots [0 .. j] is undefined and the
    array no longer holds [length()] live elements; the slots after [j]
    hold what they held.  Nothing is released. *)
Theorem ArrayOf_fill_failure_leaves_raw_slots : forall a v s (vs : list T) (j : nat),
  ArrayOf.elements s a = Some vs ->
  throw_after s = Some j -> (j < length vs)%nat ->
  exists s',
    ArrayOf.fill a v s = Throw element_failure s' /\
    trace s' = trace s ++ construct_events (ArrayOf_block a) 0 (replicate j v)
                 ++ destroy_events (ArrayOf_block a) 0 j /\
    (forall i, (i <= j)%nat ->
       (let* p := ArrayOf.subscript a (N.of_nat i) in load p) s' = Undef) /\
    (forall i x, (j < i)%nat -> vs !! i = Some x ->
       (let* p := ArrayOf.subscript a (N.of_nat i) in load p) s' = Ret x s') /\
    ArrayOf.elements s' a = None /\
    count_events is_deallocate s' = count_events is_deallocate s.
Proof.
  intros a v s vs j Ha Hth Hj. destruct (ArrayOf_owns a s vs Ha) as (al & Hp & Hb & Hn).
  set (blk := ArrayOf_block a) in *.
  set (slots' := write_from 0 (replicate j None)
                   (<[j := None]> (write_from 0 (replicate j (Some v)) (Some <$> vs)))).
  assert (forall i, (i <= j)%nat -> slots' !! i = Some None) as Hraw.
  { intros i Hi. destruct (decide (i = j)) as [->|Hne].
    - unfold slots'.
      rewrite write_from_lookup_ge by (rewrite length_replicate; simpl; lia).
      apply list_lookup_insert_eq. rewrite write_from_length, length_fmap. lia.
    - apply (write_from_lookup_in (replicate j None) 0 _ i None).
      + rewrite length_insert, write_from_length, length_replicate, length_fmap.
        simpl. lia.
      + apply lookup_replicate_2. lia. }
  assert (forall i, (j < i)%nat -> slots' !! i = (Some <$> vs) !! i) as Hkeep.
  { intros i Hi. unfold slots'.
    rewrite write_from_lookup_ge by (rewrite length_replicate; simpl; lia).
    rewrite list_lookup_insert_ne by lia.
    by rewrite write_from_lookup_ge by (rewrite length_replicate; simpl; lia). }
  assert (length slots' = length vs) as Hlen.
  { unfold slots'.
    by rewrite write_from_length, length_insert, write_from_length, length_fmap. }
  exists (MkState (<[blk := MkBlock al slots']> (heap s)) (next_block s)
            (trace s ++ construct_events blk 0 (replicate j v) ++ destroy_events blk 0 j)
            None).
  split_and!.
  - unfold ArrayOf.fill, uninitialized_fill_n. rewrite Hp, Hn, Nat2N.id.
    erewrite bind_throw_step; [done|].
    rewrite (uninitialized_fill_from_throws v blk al (length vs) j 0 s (Some <$> vs));
      try done.
    + rewrite length_fmap. simpl. lia.
    + simpl. lia.
  - done.
  - intros i Hi. unfold ArrayOf.subscript, bind, ret, load. rewrite Hp. simpl.
    unfold slot_of. simpl. rewrite lookup_insert_eq. simpl.
    by rewrite N.add_0_l, Nat2N.id, (Hraw i Hi).
  - intros i x Hi Hx. unfold ArrayOf.subscript, bind, ret, load. rewrite Hp. simpl.
    unfold slot_of. simpl. rewrite lookup_insert_eq. simpl.
    by rewrite N.add_0_l, Nat2N.id, (Hkeep i Hi), list_lookup_fmap, Hx.
  - unfold ArrayOf.elements, contents. rewrite Hp. simpl.
    rewrite lookup_insert_eq. simpl. case_decide; [|done].
    destruct (all_live slots') as [ws|] eqn:Hl; [|done].
    destruct (all_live_no_raw slots' ws 0 (Hraw 0%nat (Nat.le_0_l j)) Hl).
  - erewrite (count_events_app is_deallocate s); [|simpl; reflexivity].
    rewrite List.filter_app.
    destruct (construct_events_count blk (replicate j v) 0) as (_ & _ & ->).
    destruct (destroy_events_count (T:=T) blk j 0) as (_ & _ & ->).
    simpl. lia.
Qed.

(** X8: after [a.fill(v)], [a] compares equal, in both orders, to every
    array of the same length whose elements are all [v], provided [v]
    compares equal to itself. *)
Theorem ArrayOf_fill_then_equal : forall a b v s (va : list T),
  ArrayOf.elements s a = Some va ->
  ArrayOf.elements s b = Some (replicate (length va) v) ->
  budget_ok (length va) s -> T_eqb v v = true ->
  exists s',
    ArrayOf.fill a v s = Ret a s' /\
    ArrayOf.eq a b s' = Ret true s' /\
    ArrayOf.eq b a s' = Ret true s'.
Proof.
  intros a b v s va Ha Hb Hk Hrefl.
  destruct (ArrayOf_owns a s va Ha) as (al & Hp & Hblk & Hn).
  destruct (ArrayOf_owns b s _ Hb) as (al2 & Hp2 & Hblk2 & Hn2).
  eexists. split; [by apply (ArrayOf_fill_ok a v s (ArrayOf_block a) al va)|].
  set (s' := MkState _ _ _ _).
  assert (ArrayOf.elements s' a = Some (replicate (length va) v)) as Ha'.
  { unfold ArrayOf.elements. rewrite Hp, Hn. apply contents_Some.
    exists (ArrayOf_block a), al. subst s'. simpl.
    by rewrite lookup_insert_eq, fmap_replicate, length_replicate. }
  assert (ArrayOf.elements s' b = Some (replicate (length va) v)) as Hb'.
  { unfold ArrayOf.elements. rewrite Hp2, Hn2. apply contents_Some.
    destruct (decide (ArrayOf_block a = ArrayOf_block b)) as [Heq|Hne].
    - exists (ArrayOf_block b), al. subst s'. simpl.
      rewrite <- Heq, lookup_insert_eq, fmap_replicate. by split_and!.
    - exists (ArrayOf_block b), al2. subst s'. simpl.
      by rewrite lookup_insert_ne by done. }
  assert (prefix_eqb (replicate (length va) v) (replicate (length va) v) = true) as Hpre.
  { apply prefix_eqb_refl. by intros w ->%elem_of_replicate_inv. }
  split.
  - rewrite (ArrayOf_eq_prefix a b s' _ _ Ha' Hb') by lia. by rewrite Hpre.
  - rewrite (ArrayOf_eq_prefix b a s' _ _ Hb' Ha') by lia. by rewrite Hpre.
Qed.

(** X9: on two arrays of live elements whose left operand is not the longer
    one, [operator==] returns without changing the store, [operator!=]
    returns the opposite, and the answer is [true] exactly when each of the
    left operand's elements compares equal to the element at the same
    position on the right; the right operand's further elements are never
    read. *)
Theorem ArrayOf_eq_walks_the_left_operand : forall a b s (va vb : list T),
  ArrayOf.elements s a = Some va ->
  ArrayOf.elements s b = Some vb ->
  (length va <= length vb)%nat ->
  exists r,
    ArrayOf.eq a b s = Ret r s /\
    ArrayOf.ne a b s = Ret (negb r) s /\
    (r = true <->
       forall i x y, va !! i = Some x -> vb !! i = Some y -> T_eqb x y = true).
Proof.
  intros a b s va vb Ha Hb Hlen. exists (prefix_eqb va vb).
  pose proof (ArrayOf_eq_prefix a b s va vb Ha Hb Hlen) as Heq.
  split_and!; [done| |by apply prefix_eqb_true_le].
  unfold ArrayOf.ne. by rewrite (bind_ret_step _ _ s _ s Heq).
Qed.

(** X10: with the longer array on the left, [operator==] hands
    [std::equal] a second range shorter than the first: the call is
    undefined whatever the elements are, a pair that differs within the
    right operand's length included, and so is [operator!=]. *)
Theorem ArrayOf_eq_longer_left_operand : forall a b s (va vb : list T),
  ArrayOf.elements s a = Some va ->
  ArrayOf.elements s b = Some vb ->
  (length vb < length va)%nat ->
  ArrayOf.eq a b s = Undef /\ ArrayOf.ne a b s = Undef.
Proof.
  intros a b s va vb Ha Hb Hlen.
  destruct (ArrayOf_owns a s va Ha) as (al & Hp & Hblk & Hn).
  destruct (ArrayOf_owns b s vb Hb) as (al2 & Hp2 & Hblk2 & Hn2).
  assert (ArrayOf.eq a b s = Undef) as Heq.
  { unfold ArrayOf.eq, equal, ArrayOf.begin, ArrayOf.end_.
    rewrite Hp, Hp2, distance_begin_end, Hn.
    rewrite (in_bounds_block s _ al _ _ Hblk), (in_bounds_block s _ al2 _ _ Hblk2).
    rewrite (bool_decide_false (_ <= length (Some <$> vb))%nat)
      by (rewrite length_fmap; lia).
    by rewrite andb_false_r. }
  split; [done|]. unfold ArrayOf.ne, bind. by rewrite Heq.
Qed.
End ArrayOfFillEq.

(** ** ArrayOf: element access, traversal and swap *)

Section ArrayOfAccess.
Context {T : Type} `{!Element T}.
Implicit Types (s : state T) (a b : ArrayOf.t) (v : T) (al : Alloc).

Lemma load_out_of_range s (blk : N) al (slots : list (option T)) (i : size_type) :
  heap s !! blk = Some (MkBlock al slots) ->
  (length slots <= N.to_nat i)%nat ->
  load (Ptr blk i) s = Undef.
Proof.
  intros Hb Hi. unfold load. rewrite (slot_of_block _ _ _ _ _ Hb).
  by rewrite (proj2 (lookup_ge_None slots (N.to_nat i)) Hi).
Qed.

Lemma size_sub_small (x y : size_type) :
  y <= x -> x < 2 ^ 64 -> size_sub x y = x - y.
Proof.
  intros Hy Hx. unfold size_sub.
  replace (x + 2 ^ 64 - y) with (x - y + 1 * 2 ^ 64) by lia.
  rewrite N.Div0.mod_add. apply N.mod_small. lia.
Qed.

Lemma write_from_prefix (xs slots : list (option T)) :
  (length xs <= length slots)%nat ->
  write_from 0 xs slots = xs ++ drop (length xs) slots.
Proof.
  intros Hlen. apply list_eq. intros i.
  destruct (decide (i < length xs)%nat) as [Hi|Hi].
  - destruct (lookup_lt_is_Some_2 xs i Hi) as [x Hx].
    pose proof (write_from_lookup_in xs 0 slots i x) as Hw. simpl in Hw.
    rewrite Hw by done. by rewrite lookup_app_l, Hx.
  - rewrite write_from_lookup_ge by (simpl; lia).
    rewrite lookup_app_r, lookup_drop by lia. f_equal. lia.
Qed.

(** X11: element access on an array of live elements.  Below the length,
    reading through [at(i)] or [operator[](i)] yields the element at
    position [i] and leaves the store as it is, and assigning through
    [at(i)] replaces that element and no other, in this array or in any
    other block.  From the length on, [at(i)] throws and reading through
    [operator[](i)] is undefined. *)
Theorem ArrayOf_element_access : forall a s (vs : list T) (i : size_type) (w : T),
  ArrayOf.elements s a = Some vs ->
  match vs !! N.to_nat i with
  | Some x =>
      (let* p := ArrayOf.at_ a i in load p) s = Ret x s /\
      (let* p := ArrayOf.subscript a i in load p) s = Ret x s /\
      exists s',
        (let* p := ArrayOf.at_ a i in store p w) s = Ret tt s' /\
        ArrayOf.elements s' a = Some (<[N.to_nat i := w]> vs) /\
        trace s' = trace s /\
        (forall blk, blk <> ArrayOf_block a -> heap s' !! blk = heap s !! blk)
  | None =>
      (let* p := ArrayOf.at_ a i in load p) s = Throw out_of_range s /\
      (let* p := ArrayOf.subscript a i in load p) s = Undef
  end.
Proof.
  intros a s vs i w Ha. destruct (ArrayOf_owns a s vs Ha) as (al & Hp & Hb & Hn).
  unfold ArrayOf.at_, ArrayOf.subscript, ArrayOf.RangeCheck, bind, ret, throw.
  rewrite Hp, Hn. simpl. rewrite !N.add_0_l.
  change (match slot_of s (ArrayOf_block a) i with
          | Some (Some v) => Ret v s
          | _ => Undef
          end) with (load (Ptr (ArrayOf_block a) i) s).
  destruct (vs !! N.to_nat i) as [x|] eqn:Hi.
  - pose proof (lookup_lt_Some _ _ _ Hi) as Hlt.
    rewrite (proj2 (N.leb_gt _ _)) by lia.
    assert ((Some <$> vs) !! N.to_nat i = Some (Some x)) as Hi'
      by (by rewrite list_lookup_fmap, Hi).
    rewrite (load_ok s _ al (Some <$> vs) i x Hb Hi').
    split_and!; [done..|].
    rewrite (store_ok s _ al (Some <$> vs) i x w Hb Hi').
    eexists. split; [done|]. simpl. split_and!.
    + unfold ArrayOf.elements. rewrite Hp, Hn. apply contents_Some.
      exists (ArrayOf_block a), al. simpl.
      rewrite lookup_insert_eq, list_fmap_insert, length_insert. done.
    + done.
    + intros blk Hne. by rewrite lookup_insert_ne.
  - pose proof (proj1 (lookup_ge_None _ _) Hi) as Hge.
    rewrite (proj2 (N.leb_le _ _)) by lia.
    split; [done|].
    apply (load_out_of_range s _ al (Some <$> vs)); [done|].
    by rewrite length_fmap.
Qed.


(** X13: [begin()] and [end()] are [length()] elements apart; a traversal
    from [begin()] to [end()] reads the elements in order and one from
    [rbegin()] to [rend()] reads them in reverse order, each reading
    exactly [length()] elements and leaving the store as it is. *)
Theorem ArrayOf_traversals : forall a s (vs : list T),
  ArrayOf.elements s a = Some vs ->
  distance (ArrayOf.begin a) (ArrayOf.end_ a) = Some (ArrayOf.length a) /\
  read_range (ArrayOf.begin a) (ArrayOf.end_ a) s = Ret vs s /\
  read_reverse_range (ArrayOf.rbegin a) (ArrayOf.rend a) s = Ret (reverse vs) s.
Proof.
  intros a s vs Ha. destruct (ArrayOf_owns a s vs Ha) as (al & Hp & Hb & Hn).
  unfold read_range, read_reverse_range, ArrayOf.rbegin, ArrayOf.rend,
    ArrayOf.begin, ArrayOf.end_, ArrayOf.length.
  cbn [current]. rewrite Hp, distance_begin_end, Hn, Nat2N.id.
  split_and!; [done| |].
  - rewrite (read_from_ok _ al vs s Hb) by (simpl; lia).
    simpl. by rewrite drop_0, take_ge by lia.
  - change (ptr_add (Ptr (ArrayOf_block a) 0) (N.of_nat (length vs)))
      with (Ptr (ArrayOf_block a) (N.of_nat (length vs))).
    rewrite (read_reverse_from_ok _ al vs s Hb) by lia.
    rewrite Nat2N.id, (take_ge vs) by lia.
    by rewrite take_ge by (rewrite length_reverse; lia).
Qed.

Lemma ArrayOf_swap_shorter a b s (va vb : list T) :
  ArrayOf.elements s a = Some va ->
  ArrayOf.elements s b = Some vb ->
  (length va <= length vb)%nat ->
  ArrayOf_block a <> ArrayOf_block b ->
  exists s',
    ArrayOf.swap a b s = Ret (a, b) s' /\
    ArrayOf.elements s' a = Some (take (length va) vb) /\
    ArrayOf.elements s' b = Some (va ++ drop (length va) vb) /\
    trace s' = trace s.
Proof.
  intros Ha Hb Hlen Hne.
  destruct (ArrayOf_owns a s va Ha) as (al1 & Hp1 & H1 & Hn1).
  destruct (ArrayOf_owns b s vb Hb) as (al2 & Hp2 & H2 & Hn2).
  destruct (swap_ranges_from_ok _ _ al1 al2 Hne (length va) 0 s
              (Some <$> va) (Some <$> vb) H1 H2)
    as (s' & Hrun & Ha' & Hb' & _ & Htr & _).
  { intros j Hj. apply (live_slots va 0 (length va)); simpl; lia. }
  { intros j Hj. apply (live_slots vb 0 (length va)); simpl; lia. }
  simpl in Ha', Hb'. rewrite drop_0 in Ha', Hb'.
  rewrite <- fmap_take in Ha'.
  rewrite write_from_all in Ha' by (rewrite !length_fmap, length_take; lia).
  rewrite take_ge in Hb' by (rewrite length_fmap; lia).
  rewrite write_from_prefix in Hb' by (rewrite !length_fmap; lia).
  rewrite length_fmap, <- fmap_drop, <- fmap_app in Hb'.
  exists s'. split_and!.
  - unfold ArrayOf.swap, swap_ranges, ArrayOf.begin, ArrayOf.end_.
    rewrite Hp1, Hp2, distance_begin_end, Hn1, Nat2N.id.
    by erewrite bind_ret_step.
  - unfold ArrayOf.elements. rewrite Hp1, Hn1. apply contents_Some.
    exists (ArrayOf_block a), al1. split_and!; [done..|].
    rewrite length_take. lia.
  - unfold ArrayOf.elements. rewrite Hp2, Hn2. apply contents_Some.
    exists (ArrayOf_block b), al2. split_and!; [done..|].
    rewrite length_app, length_drop. lia.
  - done.
Qed.

Lemma ArrayOf_same_block a b s (va vb : list T) :
  ArrayOf.elements s a = Some va ->
  ArrayOf.elements s b = Some vb ->
  ArrayOf_block a = ArrayOf_block b -> va = vb.
Proof.
  intros Ha Hb Heq.
  destruct (ArrayOf_owns a s va Ha) as (al1 & _ & H1 & _).
  destruct (ArrayOf_owns b s vb Hb) as (al2 & _ & H2 & _).
  rewrite Heq, H2 in H1. injection H1 as _ H1. by apply (inj (fmap Some)) in H1.
Qed.


End ArrayOfAccess.

(** ** CollectionOf: raw storage, construction and its failure *)

Section CollectionOfLifecycle.
Context {T : Type} `{!Element T} {Args : Type} `{!Constructible Args T}.
Implicit Types (s : state T) (c d : CollectionOf.t) (n : size_type) (args : Args)
  (al : Alloc).

Lemma load_raw s (blk : N) al (slots : list (option T)) (i : size_type) :
  heap s !! blk = Some (MkBlock al slots) ->
  slots !! N.to_nat i = Some None ->
  load (Ptr blk i) s = Undef.
Proof.
  intros Hb Hi. unfold load. by rewrite (slot_of_block _ _ _ _ _ Hb), Hi.
Qed.

Lemma CollectionOf_at_load c s (blk : N) al (slots : list (option T)) (i : size_type) :
  CollectionOf.ptr_ c = Ptr blk 0 ->
  heap s !! blk = Some (MkBlock al slots) ->
  i < CollectionOf.length_ c ->
  (let* p := CollectionOf.at_ c i in load p) s = load (Ptr blk i) s.
Proof.
  intros Hp Hb Hi.
  unfold CollectionOf.at_, CollectionOf.RangeCheck, bind, ret, throw. rewrite Hp.
  rewrite (proj2 (N.leb_gt _ _) Hi). simpl. by rewrite N.add_0_l.
Qed.

(** X16: the constructor of [CollectionOf] allocates and does nothing else:
    the log gains the allocation only, no element is constructed and every
    slot is raw.  Until [construct] is called, reading an element through
    [at(i)] or [operator[]] is undefined although the range check of
    [at(i)] passes, and a collection of positive length holds no
    elements. *)
Theorem CollectionOf_ctor_leaves_storage_raw : forall n al s,
  n <= max_size al ->
  exists c s1,
    CollectionOf.ctor n al s = Ret c s1 /\
    CollectionOf.length c = n /\
    CollectionOf.data c = Ptr (next_block s) 0 /\
    trace s1 = trace s ++ [EvAllocate al (next_block s) n] /\
    count_events is_construct s1 = count_events is_construct s /\
    (forall i, i < n -> CollectionOf.at_ c i s1 = Ret (Ptr (next_block s) i) s1) /\
    (forall i, i < n -> (let* p := CollectionOf.at_ c i in load p) s1 = Undef) /\
    (forall i, i < n -> (let* p := CollectionOf.subscript c i in load p) s1 = Undef) /\
    (0 < n -> CollectionOf.elements s1 c = None).
Proof.
  intros n al s Hn.
  eexists _, _. split; [by apply CollectionOf_ctor_ok|].
  set (c := CollectionOf.Mk _ _ _). set (s1 := MkState _ _ _ _).
  assert (heap s1 !! next_block s
          = Some (MkBlock al (replicate (N.to_nat n) None))) as Hb
    by apply lookup_insert_eq.
  split_and!; try done.
  - erewrite (count_events_app is_construct s); [|simpl; reflexivity].
    simpl. lia.
  - intros i Hi. unfold CollectionOf.at_, CollectionOf.RangeCheck, bind, ret. simpl.
    rewrite (proj2 (N.leb_gt _ _) Hi). by rewrite N.add_0_l.
  - intros i Hi.
    rewrite (CollectionOf_at_load c s1 (next_block s) al _ i eq_refl Hb Hi).
    apply (load_raw s1 _ al _ i Hb). apply lookup_replicate_2. lia.
  - intros i Hi. unfold CollectionOf.subscript, bind, ret. simpl.
    rewrite N.add_0_l.
    apply (load_raw s1 _ al _ i Hb). apply lookup_replicate_2. lia.
  - intros Hpos.
    unfold CollectionOf.elements, contents. simpl. rewrite lookup_insert_eq. simpl.
    case_decide; [|done].
    destruct (all_live _) as [ws|] eqn:Hl; [|done].
    assert (replicate (N.to_nat n) (@None T) !! 0%nat = Some None) as Hraw
      by (apply lookup_replicate_2; lia).
    destruct (all_live_no_raw _ ws 0 Hraw Hl).
Qed.

(** X17: [construct(args...)] with a pack that construction does not
    consume, after a successful allocation and with no constructor
    throwing: the length is unchanged, every slot holds the value
    [T(args...)], which is what [at(i)] then reads for every [i] below the
    length, and the log gains one construction per slot, in index order. *)
Theorem CollectionOf_construct_same_value_everywhere : forall n al args v s,
  n <= max_size al -> budget_ok (N.to_nat n) s ->
  T_construct args = (v, args) ->
  exists c s1 s2,
    CollectionOf.ctor n al s = Ret c s1 /\
    CollectionOf.construct c args s1 = Ret c s2 /\
    CollectionOf.length c = n /\
    CollectionOf.elements s2 c = Some (replicate (N.to_nat n) v) /\
    trace s2 = trace s1 ++ construct_events (next_block s) 0 (replicate (N.to_nat n) v) /\
    (forall i, i < n -> (let* p := CollectionOf.at_ c i in load p) s2 = Ret v s2).
Proof.
  intros n al args v s Hn Hk Hc.
  set (c := CollectionOf.Mk n (Ptr (next_block s) 0) (CollectionOf.MkDeleter al)).
  set (s1 := MkState (<[next_block s := MkBlock al (replicate (N.to_nat n) None)]> (heap s))
               (N.succ (next_block s)) (trace s ++ [EvAllocate al (next_block s) n])
               (throw_after s)).
  assert (CollectionOf.construct c args s1 =
          Ret c (MkState (<[next_block s := MkBlock al (Some <$> replicate (N.to_nat n) v)]>
                            (heap s1))
                   (next_block s1)
                   (trace s1 ++ construct_events (next_block s) 0 (replicate (N.to_nat n) v))
                   (spend (N.to_nat n) (throw_after s1)))) as H2.
  { rewrite (CollectionOf_construct_ok c (next_block s) al
               (replicate (N.to_nat n) None) args s1);
      rewrite ?length_replicate; try done.
    - by rewrite (construct_values_unconsumed args v).
    - apply lookup_insert_eq. }
  eexists c, s1, _. split; [by apply CollectionOf_ctor_ok|]. split; [exact H2|].
  set (s2 := MkState _ _ _ _).
  assert (heap s2 !! next_block s
          = Some (MkBlock al (Some <$> replicate (N.to_nat n) v))) as Hb
    by apply lookup_insert_eq.
  split_and!; try done.
  - apply contents_Some. exists (next_block s), al.
    split_and!; [done..|]. simpl. rewrite length_replicate. lia.
  - intros i Hi.
    rewrite (CollectionOf_at_load c s2 (next_block s) al _ i eq_refl Hb Hi).
    apply (load_ok s2 _ al _ i v Hb).
    rewrite list_lookup_fmap, lookup_replicate_2 by lia. done.
Qed.

(** X18: when the constructor of slot [j] throws during [construct], the
    exception leaves [construct] with slots [0 .. j-1] constructed and
    still live (no destructor has run, nothing is released) and the slots
    from [j] on raw; the first can be read, the others cannot, and the
    collection does not hold [length()] elements. *)
Theorem CollectionOf_construct_failure_keeps_built_slots : forall n al args s (j : nat),
  n <= max_size al -> throw_after s = Some j -> (j < N.to_nat n)%nat ->
  exists c s1 s2,
    CollectionOf.ctor n al s = Ret c s1 /\
    CollectionOf.construct c args s1 = Throw element_failure s2 /\
    trace s2 = trace s1 ++ construct_events (next_block s) 0
                              (CollectionOf.construct_values args j) /\
    count_events is_destroy s2 = count_events is_destroy s /\
    (forall i x, CollectionOf.construct_values args j !! N.to_nat i = Some x ->
       (let* p := CollectionOf.at_ c i in load p) s2 = Ret x s2) /\
    (forall i, (j <= N.to_nat i)%nat -> i < n ->
       (let* p := CollectionOf.at_ c i in load p) s2 = Undef) /\
    CollectionOf.elements s2 c = None /\
    count_events is_deallocate s2 = count_events is_deallocate s.
Proof.
  intros n al args s j Hn Hth Hj.
  set (b := next_block s).
  set (vals := CollectionOf.construct_values args j).
  assert (length vals = j) as Hvals by apply construct_values_length.
  set (c := CollectionOf.Mk n (Ptr b 0) (CollectionOf.MkDeleter al)).
  set (s1 := MkState (<[b := MkBlock al (replicate (N.to_nat n) None)]> (heap s))
               (N.succ b) (trace s ++ [EvAllocate al b n]) (throw_after s)).
  set (slots' := <[j := None]>
                   (write_from 0 (Some <$> vals) (replicate (N.to_nat n) None))).
  set (s2 := MkState (<[b := MkBlock al slots']> (heap s1)) (next_block s1)
               (trace s1 ++ construct_events b 0 vals) None).
  assert (forall i x, vals !! i = Some x -> slots' !! i = Some (Some x)) as Hlive.
  { intros i x Hx. unfold slots'.
    rewrite list_lookup_insert_ne by (apply lookup_lt_Some in Hx; lia).
    apply (write_from_lookup_in (Some <$> vals) 0 _ i (Some x)).
    - rewrite length_fmap, length_replicate. simpl. lia.
    - by rewrite list_lookup_fmap, Hx. }
  assert (forall i, (j <= i < N.to_nat n)%nat -> slots' !! i = Some None) as Hraw.
  { intros i Hi. unfold slots'. destruct (decide (i = j)) as [->|Hne].
    - apply list_lookup_insert_eq. rewrite write_from_length, length_replicate. lia.
    - rewrite list_lookup_insert_ne by done.
      rewrite write_from_lookup_ge by (rewrite length_fmap; simpl; lia).
      apply lookup_replicate_2. lia. }
  assert (heap s2 !! b = Some (MkBlock al slots')) as Hb by apply lookup_insert_eq.
  exists c, s1, s2. split; [by apply CollectionOf_ctor_ok|].
  split_and!.
  - unfold CollectionOf.construct.
    erewrite bind_throw_step; [done|].
    rewrite (construct_from_throws c b al eq_refl (N.to_nat n) j args 0 s1
               (replicate (N.to_nat n) None)); try done.
    + apply lookup_insert_eq.
    + rewrite length_replicate. simpl. lia.
  - done.
  - erewrite (count_events_app is_destroy s s2
                (EvAllocate al b n :: construct_events b 0 vals)).
    + simpl. destruct (construct_events_count b vals 0) as (_ & -> & _).
      simpl. lia.
    + simpl. by rewrite <- app_assoc.
  - intros i x Hx.
    assert (i < n) as Hi by (apply lookup_lt_Some in Hx; lia).
    rewrite (CollectionOf_at_load c s2 b al _ i eq_refl Hb Hi).
    apply (load_ok s2 _ al _ i x Hb). by apply Hlive.
  - intros i Hji Hi.
    rewrite (CollectionOf_at_load c s2 b al _ i eq_refl Hb Hi).
    apply (load_raw s2 _ al _ i Hb). apply Hraw. lia.
  - unfold CollectionOf.elements, contents. simpl. rewrite lookup_insert_eq. simpl.
    case_decide; [|done].
    destruct (all_live slots') as [ws|] eqn:Hl; [|done].
    destruct (all_live_no_raw slots' ws j (Hraw j ltac:(lia)) Hl).
  - erewrite (count_events_app is_deallocate s s2
                (EvAllocate al b n :: construct_events b 0 vals)).
    + simpl. destruct (construct_events_count b vals 0) as (_ & _ & ->).
      simpl. lia.
    + simpl. by rewrite <- app_assoc.
Qed.

(** X19: [construct] called twice.  The second call builds its objects over
    those of the first without destroying them: after it a collection of
    length [n] has seen [2n] constructions and no destruction, nothing has
    been released, and its elements are those of the second call. *)
Theorem CollectionOf_construct_twice : forall n al args1 args2 s,
  n <= max_size al -> budget_ok (N.to_nat n + N.to_nat n) s ->
  exists c s1 s2 s3,
    CollectionOf.ctor n al s = Ret c s1 /\
    CollectionOf.construct c args1 s1 = Ret c s2 /\
    CollectionOf.construct c args2 s2 = Ret c s3 /\
    CollectionOf.elements s2 c
      = Some (CollectionOf.construct_values args1 (N.to_nat n)) /\
    CollectionOf.elements s3 c
      = Some (CollectionOf.construct_values args2 (N.to_nat n)) /\
    trace s3 = trace s ++ EvAllocate al (next_block s) n
                 :: construct_events (next_block s) 0
                      (CollectionOf.construct_values args1 (N.to_nat n))
                 ++ construct_events (next_block s) 0
                      (CollectionOf.construct_values args2 (N.to_nat n)) /\
    count_events is_construct s3
      = (count_events is_construct s + (N.to_nat n + N.to_nat n))%nat /\
    count_events is_destroy s3 = count_events is_destroy s /\
    count_events is_deallocate s3 = count_events is_deallocate s.
Proof.
  intros n al args1 args2 s Hn Hk.
  set (b := next_block s).
  set (v1 := CollectionOf.construct_values args1 (N.to_nat n)).
  set (v2 := CollectionOf.construct_values args2 (N.to_nat n)).
  assert (length v1 = N.to_nat n) as Hv1 by apply construct_values_length.
  assert (length v2 = N.to_nat n) as Hv2 by apply construct_values_length.
  set (c := CollectionOf.Mk n (Ptr b 0) (CollectionOf.MkDeleter al)).
  set (s1 := MkState (<[b := MkBlock al (replicate (N.to_nat n) None)]> (heap s))
               (N.succ b) (trace s ++ [EvAllocate al b n]) (throw_after s)).
  set (s2 := MkState (<[b := MkBlock al (Some <$> v1)]> (heap s1)) (next_block s1)
               (trace s1 ++ construct_events b 0 v1)
               (spend (N.to_nat n) (throw_after s1))).
  set (s3 := MkState (<[b := MkBlock al (Some <$> v2)]> (heap s2)) (next_block s2)
               (trace s2 ++ construct_events b 0 v2)
               (spend (N.to_nat n) (throw_after s2))).
  assert (CollectionOf.construct c args1 s1 = Ret c s2) as H2.
  { rewrite (CollectionOf_construct_ok c b al (replicate (N.to_nat n) None) args1 s1);
      rewrite ?length_replicate; try done.
    - apply lookup_insert_eq.
    - apply (budget_ok_le (N.to_nat n) (N.to_nat n + N.to_nat n)); [lia|done]. }
  assert (CollectionOf.construct c args2 s2 = Ret c s3) as H3.
  { rewrite (CollectionOf_construct_ok c b al (Some <$> v1) args2 s2);
      rewrite ?length_fmap, ?Hv1; try done.
    - apply lookup_insert_eq.
    - subst s2 s1. by apply budget_ok_spend. }
  assert (trace s3 = trace s ++ EvAllocate al b n :: construct_events b 0 v1
                       ++ construct_events b 0 v2)
    as Htr by (simpl; by rewrite <- !app_assoc).
  destruct (construct_events_count b v1 0) as (Hc1 & Hc2 & Hc3).
  destruct (construct_events_count b v2 0) as (Hd1 & Hd2 & Hd3).
  exists c, s1, s2, s3. split; [by apply CollectionOf_ctor_ok|].
  split_and!; try done.
  - apply contents_Some. exists b, al. split_and!; [done|apply lookup_insert_eq|].
    simpl. lia.
  - apply contents_Some. exists b, al. split_and!; [done|apply lookup_insert_eq|].
    simpl. lia.
  - rewrite (count_events_app is_construct s s3 _ Htr). simpl.
    rewrite !List.filter_app, Hc1, Hd1.
    rewrite !length_app, !construct_events_length. lia.
  - rewrite (count_events_app is_destroy s s3 _ Htr). simpl.
    rewrite !List.filter_app, Hc2, Hd2. simpl. lia.
  - rewrite (count_events_app is_deallocate s s3 _ Htr). simpl.
    rewrite !List.filter_app, Hc3, Hd3. simpl. lia.
Qed.
End CollectionOfLifecycle.

(** ** CollectionOf: reading a constructed collection *)

Section CollectionOfReads.
Context {T : Type} `{!Element T}.
Implicit Types (s : state T) (c d : CollectionOf.t) (al : Alloc).

Lemma CollectionOf_owns c s (vs : list T) :
  CollectionOf.elements s c = Some vs ->
  exists blk al, CollectionOf.ptr_ c = Ptr blk 0 /\
    heap s !! blk = Some (MkBlock al (Some <$> vs)) /\
    CollectionOf.length_ c = N.of_nat (length vs).
Proof. intros Hc. by apply contents_Some in Hc. Qed.

(** X20: on a collection whose slots are all constructed, [front()] and
    [back()] name the first and the last element, a traversal from
    [begin()] to [end()] reads the elements in order and one from
    [rbegin()] to [rend()] reads them in reverse order; on a collection of
    length 0, reading through [front()] or [back()] is undefined. *)
Theorem CollectionOf_constructed_reads : forall c s (vs : list T),
  CollectionOf.elements s c = Some vs -> N.of_nat (length vs) < 2 ^ 64 ->
  (let* p := CollectionOf.front c in load p) s
    = match head vs with Some x => Ret x s | None => Undef end /\
  (let* p := CollectionOf.back c in load p) s
    = match last vs with Some x => Ret x s | None => Undef end /\
  read_range (CollectionOf.begin c) (CollectionOf.end_ c) s = Ret vs s /\
  read_reverse_range (CollectionOf.rbegin c) (CollectionOf.rend c) s
    = Ret (reverse vs) s.
Proof.
  intros c s vs Hc Hrange.
  destruct (CollectionOf_owns c s vs Hc) as (blk & al & Hp & Hb & Hn).
  unfold CollectionOf.front, CollectionOf.back, read_range, read_reverse_range,
    CollectionOf.rbegin, CollectionOf.rend, CollectionOf.begin, CollectionOf.end_,
    bind, ret.
  cbn [current]. rewrite Hp, distance_begin_end, Hn, Nat2N.id.
  split_and!.
  - rewrite head_lookup. destruct (vs !! 0%nat) as [x|] eqn:Hx.
    + apply (load_ok s _ al (Some <$> vs)); [done|].
      rewrite list_lookup_fmap. change (N.to_nat (0 + 0)) with 0%nat.
      by rewrite Hx.
    + apply (load_out_of_range s _ al (Some <$> vs)); [done|].
      apply lookup_ge_None in Hx. rewrite length_fmap. lia.
  - rewrite last_lookup. destruct (vs !! pred (length vs)) as [x|] eqn:Hx.
    + pose proof (lookup_lt_Some _ _ _ Hx) as Hlt.
      rewrite size_sub_small by lia.
      apply (load_ok s _ al (Some <$> vs)); [done|].
      rewrite list_lookup_fmap, N.add_0_l.
      replace (N.to_nat (N.of_nat (length vs) - 1)) with (pred (length vs)) by lia.
      by rewrite Hx.
    + apply lookup_ge_None in Hx.
      assert (vs = []) as -> by (destruct vs; [done|simpl in Hx; lia]).
      apply (load_out_of_range s _ al []); [done|]. simpl. lia.
  - rewrite (read_from_ok _ al vs s Hb) by (simpl; lia).
    simpl. by rewrite drop_0, take_ge by lia.
  - change (ptr_add (Ptr blk 0) (N.of_nat (length vs)))
      with (Ptr blk (N.of_nat (length vs))).
    rewrite (read_reverse_from_ok _ al vs s Hb) by lia.
    rewrite Nat2N.id, (take_ge vs) by lia.
    by rewrite take_ge by (rewrite length_reverse; lia).
Qed.

(** X21: [operator==] and [operator!=] of [CollectionOf], on constructed
    collections whose left operand is not the longer one: the store is
    unchanged, [!=] is the opposite of [==], and [==] is [true] exactly
    when each element of the left operand compares equal to the element at
    the same position on the right. *)
Theorem CollectionOf_eq_walks_the_left_operand : forall c d s (vc vd : list T),
  CollectionOf.elements s c = Some vc ->
  CollectionOf.elements s d = Some vd ->
  (length vc <= length vd)%nat ->
  exists r,
    CollectionOf.eq c d s = Ret r s /\
    CollectionOf.ne c d s = Ret (negb r) s /\
    (r = true <->
       forall i x y, vc !! i = Some x -> vd !! i = Some y -> T_eqb x y = true).
Proof.
  intros c d s vc vd Hc Hd Hlen. exists (prefix_eqb vc vd).
  pose proof (CollectionOf_eq_prefix c d s vc vd Hc Hd Hlen) as Heq.
  split_and!; [done| |by apply prefix_eqb_true_le].
  unfold CollectionOf.ne. by rewrite (bind_ret_step _ _ s _ s Heq).
Qed.
End CollectionOfReads.

(** ** The theorems above at concrete arrays and collections *)

Lemma ArrayOf_move_assign_then_destroy_both_3_4 :
  exists a b s1 s2 s3 s4,
    ArrayOf.ctor 3 5%Z Alloc_default empty_state = Ret a s1 /\
    ArrayOf.ctor 4 6%Z Alloc_default s1 = Ret b s2 /\
    ArrayOf.elements s2 (ArrayOf.move_assign a b).1 = Some (replicate (N.to_nat 4) 6%Z) /\
    ArrayOf.elements s2 (ArrayOf.move_assign a b).2 = Some (replicate (N.to_nat 3) 5%Z) /\
    ArrayOf.dtor (ArrayOf.move_assign a b).1 s2 = Ret tt s3 /\
    ArrayOf.dtor (ArrayOf.move_assign a b).2 s3 = Ret tt s4 /\
    trace s4 = trace s2 ++ [EvDeallocate Alloc_default (ArrayOf_block b) 4;
                            EvDeallocate Alloc_default (ArrayOf_block a) 3] /\
    ArrayOf_block a <> ArrayOf_block b /\
    heap s4 !! ArrayOf_block a = None /\ heap s4 !! ArrayOf_block b = None.
Proof.
  apply (ArrayOf_move_assign_then_destroy_both 3 4 5%Z 6%Z Alloc_default empty_state).
  - vm_compute. discriminate.
  - vm_compute. discriminate.
  - exact I.
Defined.

Lemma ArrayOf_fill_123_with_0 :
  exists s',
    ArrayOf.fill array_123 0%Z store_123_987 = Ret array_123 s' /\
    ArrayOf.elements s' array_123 = Some [0; 0; 0]%Z /\
    count_events is_destroy s' = count_events is_destroy store_123_987.
Proof.
  destruct (ArrayOf_fill_overwrites_every_slot array_123 0%Z store_123_987
              [1; 2; 3]%Z eq_refl I) as (s' & Hrun & Hel & _ & _ & Hd & _).
  by exists s'.
Defined.

Lemma ArrayOf_fill_123_second_copy_throws :
  exists s',
    ArrayOf.fill array_123 0%Z store_123_987_throwing = Throw element_failure s' /\
    (let* p := ArrayOf.subscript array_123 0 in load p) s' = Undef /\
    (let* p := ArrayOf.subscript array_123 1 in load p) s' = Undef /\
    (let* p := ArrayOf.subscript array_123 2 in load p) s' = Ret 3%Z s' /\
    ArrayOf.elements s' array_123 = None.
Proof.
  destruct (ArrayOf_fill_failure_leaves_raw_slots array_123 0%Z store_123_987_throwing
              [1; 2; 3]%Z 1 eq_refl eq_refl ltac:(simpl; lia))
    as (s' & Hrun & _ & Hraw & Hkeep & Hel & _).
  exists s'. split_and!.
  - exact Hrun.
  - apply (Hraw 0%nat). lia.
  - apply (Hraw 1%nat). lia.
  - apply (Hkeep 2%nat 3%Z); [lia|reflexivity].
  - exact Hel.
Defined.

Lemma ArrayOf_fill_123_with_7_equals_777 :
  exists s',
    ArrayOf.fill array_123 7%Z store_123_777 = Ret array_123 s' /\
    ArrayOf.eq array_123 array_777 s' = Ret true s' /\
    ArrayOf.eq array_777 array_123 s' = Ret true s'.
Proof.
  apply (ArrayOf_fill_then_equal array_123 array_777 7%Z store_123_777 [1; 2; 3]%Z);
    reflexivity || exact I.
Defined.

Lemma ArrayOf_eq_12_1256 :
  exists r,
    ArrayOf.eq array_12 array_1256 store_12_1256 = Ret r store_12_1256 /\
    ArrayOf.ne array_12 array_1256 store_12_1256 = Ret (negb r) store_12_1256 /\
    (r = true <->
       forall i x y, [1; 2]%Z !! i = Some x -> [1; 2; 5; 6]%Z !! i = Some y ->
                     T_eqb x y = true).
Proof.
  apply (ArrayOf_eq_walks_the_left_operand array_12 array_1256 store_12_1256
           [1; 2]%Z [1; 2; 5; 6]%Z); [reflexivity..|simpl; lia].
Defined.

Lemma ArrayOf_eq_1256_12 :
  ArrayOf.eq array_1256 array_12 store_12_1256 = Undef /\
  ArrayOf.ne array_1256 array_12 store_12_1256 = Undef.
Proof.
  apply (ArrayOf_eq_longer_left_operand array_1256 array_12 store_12_1256
           [1; 2; 5; 6]%Z [1; 2]%Z); [reflexivity..|simpl; lia].
Defined.

Lemma ArrayOf_element_access_123_at_1 :
  (let* p := ArrayOf.at_ array_123 1 in load p) store_123_987 = Ret 2%Z store_123_987 /\
  (let* p := ArrayOf.subscript array_123 1 in load p) store_123_987
    = Ret 2%Z store_123_987 /\
  exists s',
    (let* p := ArrayOf.at_ array_123 1 in store p 0%Z) store_123_987 = Ret tt s' /\
    ArrayOf.elements s' array_123 = Some [1; 0; 3]%Z /\
    trace s' = trace store_123_987 /\
    (forall blk, blk <> ArrayOf_block array_123 ->
       heap s' !! blk = heap store_123_987 !! blk).
Proof.
  exact (ArrayOf_element_access array_123 store_123_987 [1; 2; 3]%Z 1 0%Z eq_refl).
Defined.


Lemma ArrayOf_traversals_123 :
  distance (ArrayOf.begin array_123) (ArrayOf.end_ array_123)
    = Some (ArrayOf.length array_123) /\
  read_range (ArrayOf.begin array_123) (ArrayOf.end_ array_123) store_123_987
    = Ret [1; 2; 3]%Z store_123_987 /\
  read_reverse_range (ArrayOf.rbegin array_123) (ArrayOf.rend array_123) store_123_987
    = Ret (reverse [1; 2; 3]%Z) store_123_987.
Proof.
  exact (ArrayOf_traversals array_123 store_123_987 [1; 2; 3]%Z eq_refl).
Defined.



Lemma CollectionOf_ctor_leaves_storage_raw_3 :
  exists c s1,
    CollectionOf.ctor 3 Alloc_default (@empty_state Z) = Ret c s1 /\
    CollectionOf.length c = 3 /\
    count_events is_construct s1 = count_events is_construct (@empty_state Z) /\
    (let* p := CollectionOf.at_ c 0 in load p) s1 = Undef /\
    (let* p := CollectionOf.subscript c 2 in load p) s1 = Undef /\
    CollectionOf.elements s1 c = None.
Proof.
  destruct (CollectionOf_ctor_leaves_storage_raw (T:=Z) 3 Alloc_default empty_state
              ltac:(vm_compute; discriminate))
    as (c & s1 & Hrun & Hlen & _ & _ & Hcount & _ & Hat & Hsub & Hpos).
  exists c, s1. split_and!.
  - exact Hrun.
  - exact Hlen.
  - exact Hcount.
  - apply Hat. reflexivity.
  - apply Hsub. reflexivity.
  - apply Hpos. reflexivity.
Defined.

Lemma CollectionOf_construct_42_in_5_slots :
  exists c s1 s2,
    CollectionOf.ctor 5 Alloc_default empty_state = Ret c s1 /\
    CollectionOf.construct c 42%Z s1 = Ret c s2 /\
    CollectionOf.length c = 5 /\
    CollectionOf.elements s2 c = Some (replicate (N.to_nat 5) 42%Z) /\
    trace s2 = trace s1 ++ construct_events (next_block (@empty_state Z)) 0
                              (replicate (N.to_nat 5) 42%Z) /\
    (forall i, i < 5 -> (let* p := CollectionOf.at_ c i in load p) s2 = Ret 42%Z s2).
Proof.
  apply (CollectionOf_construct_same_value_everywhere (T:=Z) (Args:=Z)
           5 Alloc_default 42%Z 42%Z empty_state).
  - vm_compute. discriminate.
  - exact I.
  - reflexivity.
Defined.

Lemma CollectionOf_construct_second_slot_throws :
  exists c s1 s2,
    CollectionOf.ctor 3 Alloc_default empty_state_throwing = Ret c s1 /\
    CollectionOf.construct c 42%Z s1 = Throw element_failure s2 /\
    (let* p := CollectionOf.at_ c 0 in load p) s2 = Ret 42%Z s2 /\
    (let* p := CollectionOf.at_ c 1 in load p) s2 = Undef /\
    count_events is_destroy s2 = count_events is_destroy empty_state_throwing /\
    CollectionOf.elements s2 c = None.
Proof.
  destruct (CollectionOf_construct_failure_keeps_built_slots (T:=Z) (Args:=Z)
              3 Alloc_default 42%Z empty_state_throwing 1
              ltac:(vm_compute; discriminate) eq_refl ltac:(simpl; lia))
    as (c & s1 & s2 & Hctor & Hrun & _ & Hd & Hlive & Hraw & Hel & _).
  exists c, s1, s2. split_and!.
  - exact Hctor.
  - exact Hrun.
  - apply (Hlive 0 42%Z). reflexivity.
  - apply (Hraw 1); [simpl; lia|reflexivity].
  - exact Hd.
  - exact Hel.
Defined.

Lemma CollectionOf_construct_twice_2 :
  exists c s1 s2 s3,
    CollectionOf.ctor 2 Alloc_default empty_state = Ret c s1 /\
    CollectionOf.construct c 1%Z s1 = Ret c s2 /\
    CollectionOf.construct c 2%Z s2 = Ret c s3 /\
    CollectionOf.elements s2 c = Some (CollectionOf.construct_values 1%Z (N.to_nat 2)) /\
    CollectionOf.elements s3 c = Some (CollectionOf.construct_values 2%Z (N.to_nat 2)) /\
    trace s3 = trace (@empty_state Z) ++ EvAllocate Alloc_default (next_block (@empty_state Z)) 2
                 :: construct_events (next_block (@empty_state Z)) 0
                      (CollectionOf.construct_values 1%Z (N.to_nat 2))
                 ++ construct_events (next_block (@empty_state Z)) 0
                      (CollectionOf.construct_values 2%Z (N.to_nat 2)) /\
    count_events is_construct s3
      = (count_events is_construct (@empty_state Z) + (N.to_nat 2 + N.to_nat 2))%nat /\
    count_events is_destroy s3 = count_events is_destroy (@empty_state Z) /\
    count_events is_deallocate s3 = count_events is_deallocate (@empty_state Z).
Proof.
  apply (CollectionOf_construct_twice (T:=Z) (Args:=Z) 2 Alloc_default 1%Z 2%Z empty_state).
  - vm_compute. discriminate.
  - exact I.
Defined.

Lemma CollectionOf_constructed_reads_12 :
  (let* p := CollectionOf.front collection_12 in load p) store_12_1256
    = Ret 1%Z store_12_1256 /\
  (let* p := CollectionOf.back collection_12 in load p) store_12_1256
    = Ret 2%Z store_12_1256 /\
  read_range (CollectionOf.begin collection_12) (CollectionOf.end_ collection_12)
    store_12_1256 = Ret [1; 2]%Z store_12_1256 /\
  read_reverse_range (CollectionOf.rbegin collection_12) (CollectionOf.rend collection_12)
    store_12_1256 = Ret (reverse [1; 2]%Z) store_12_1256.
Proof.
  exact (CollectionOf_constructed_reads collection_12 store_12_1256 [1; 2]%Z
           eq_refl eq_refl).
Defined.

Lemma CollectionOf_eq_12_1256 :
  exists r,
    CollectionOf.eq collection_12 collection_1256 store_12_1256 = Ret r store_12_1256 /\
    CollectionOf.ne collection_12 collection_1256 store_12_1256
      = Ret (negb r) store_12_1256 /\
    (r = true <->
       forall i x y, [1; 2]%Z !! i = Some x -> [1; 2; 5; 6]%Z !! i = Some y ->
                     T_eqb x y = true).
Proof.
  apply (CollectionOf_eq_walks_the_left_operand collection_12 collection_1256
           store_12_1256 [1; 2]%Z [1; 2; 5; 6]%Z); [reflexivity..|simpl; lia].
Defined.
